(** * In-place bit-reversal reordering of a complex sample buffer

    A shallow embedding of [WebRtcSpl_ComplexBitReverse] (src/fft.cc) and the
    properties of the reordering it performs.

    Conventions of the embedding.
    - A C [int] / [int32_t] is a [Z] kept in the range of 32-bit two's
      complement; every addition, subtraction and left shift of the source is
      followed by [to_int32], which writes the wrap-around out.  Up to
      [stages = 30] no operation of the routine overflows and [to_int32]
      changes nothing.
    - The buffer [int16_t* complex_data] is a [list Z] of 16-bit values,
      real part at even positions and imaginary part at odd positions.  The
      source reads and writes it through an [int32_t*]: [load32] and
      [store32] move one (real, imaginary) pair as a 32-bit lane, low half
      first.
    - The two loops of the source are run with fuel.  An access outside the
      list and an exhausted fuel are distinct outcomes. *)

From Stdlib Require Import ZArith Lia List Permutation.
From stdpp Require Import base numbers list relations.

Local Open Scope Z_scope.

(** ** Machine integers *)

Definition to_int32 (z : Z) : Z := (z + 2147483648) mod 4294967296 - 2147483648.
Definition to_int16 (z : Z) : Z := (z + 32768) mod 65536 - 32768.

Definition is_int16 (z : Z) : Prop := -32768 <= z < 32768.
Definition is_int32 (z : Z) : Prop := -2147483648 <= z < 2147483648.

(** ** Outcomes of a run *)

Inductive outcome (A : Type) : Type :=
| Done (a : A)
| OutOfFuel
| OutOfBounds.

Arguments Done {A} a.
Arguments OutOfFuel {A}.
Arguments OutOfBounds {A}.

Definition bind {A B : Type} (c : outcome A) (k : A -> outcome B) : outcome B :=
  match c with
  | Done a => k a
  | OutOfFuel => OutOfFuel
  | OutOfBounds => OutOfBounds
  end.

Notation "'do' x <~ c ; k" := (bind c (fun x => k))
  (at level 10, x name, c at level 100, k at level 200).

(** A computation indexed by its fuel that yields no result whatever the fuel. *)
Definition diverges {A : Type} (run : nat -> outcome A) : Prop :=
  forall fuel, run fuel = OutOfFuel.

(** ** The buffer seen through the [int32_t*] *)

(** The 32-bit lane made of a real part (low half) and an imaginary part
    (high half), and the two halves of a lane. *)
Definition pack (re im : Z) : Z := to_int32 (re mod 65536 + im * 65536).
Definition unpack (v : Z) : Z * Z := (to_int16 v, to_int16 (Z.shiftr v 16)).

(** [complex_data_ptr[i]] as an rvalue. *)
Definition load32 (p : list Z) (i : Z) : outcome Z :=
  if i <? 0 then OutOfBounds
  else match p !! Z.to_nat (2 * i), p !! Z.to_nat (2 * i + 1) with
       | Some re, Some im => Done (pack re im)
       | _, _ => OutOfBounds
       end.

(** [complex_data_ptr[i] = v]. *)
Definition store32 (p : list Z) (i v : Z) : outcome (list Z) :=
  if (i <? 0) || (Z.of_nat (length p) <? 2 * i + 2) then OutOfBounds
  else Done (<[Z.to_nat (2 * i + 1) := snd (unpack v)]>
             (<[Z.to_nat (2 * i) := fst (unpack v)]> p)).

(** The complex sample at index [i]: its (real, imaginary) pair, if the
    buffer has one there. *)
Definition sample (p : list Z) (i : Z) : option (Z * Z) :=
  if i <? 0 then None
  else match p !! Z.to_nat (2 * i), p !! Z.to_nat (2 * i + 1) with
       | Some re, Some im => Some (re, im)
       | _, _ => None
       end.

(** The first [n] complex samples, in index order. *)
Definition samples (p : list Z) (n : Z) : list (option (Z * Z)) :=
  sample p <$> seqZ 0 n.

(** The buffer that holds the given (real, imaginary) pairs in order. *)
Definition interleave (vs : list (Z * Z)) : list Z :=
  flat_map (fun v => [fst v; snd v]) vs.

(** ** The routine *)

(** The variables that live across iterations of the [for] loop. *)
Record state : Type := mkState {
  index : Z;
  index_reversed : Z;
  complex_data : list Z
}.

(** [do { bit >>= 1; } while (bit > max - index_reversed);], entered with
    [bit = length].  The shift of a negative [bit] is the arithmetic one. *)
Fixpoint find_bit (fuel : nat) (bit max index_reversed : Z) : outcome Z :=
  match fuel with
  | O => OutOfFuel
  | S fuel' =>
      let bit := Z.shiftr bit 1 in
      if bit >? to_int32 (max - index_reversed)
      then find_bit fuel' bit max index_reversed
      else Done bit
  end.

(** The search for [bit] followed by
    [mask = bit - 1; index_reversed = (index_reversed & mask) + bit;]. *)
Definition advance (fuel : nat) (length max index_reversed : Z) : outcome Z :=
  do bit <~ find_bit fuel length max index_reversed;
  let mask := to_int32 (bit - 1) in
  Done (to_int32 (Z.land index_reversed mask + bit)).

(** One pass through the body of the [for] loop, [++index] included. *)
Definition iteration (fuel : nat) (length max : Z) (st : state) : outcome state :=
  do index_reversed <~ advance fuel length max (index_reversed st);
  if index_reversed <=? index st
  then Done (mkState (to_int32 (index st + 1)) index_reversed (complex_data st))
  else
    do temp <~ load32 (complex_data st) (index st);
    do v <~ load32 (complex_data st) index_reversed;
    do d <~ store32 (complex_data st) (index st) v;
    do d <~ store32 d index_reversed temp;
    Done (mkState (to_int32 (index st + 1)) index_reversed d).

(** [for (...; index <= max; ++index) { ... }] from the state [st]. *)
Fixpoint for_loop (fuel : nat) (length max : Z) (st : state) : outcome state :=
  if index st <=? max then
    match fuel with
    | O => OutOfFuel
    | S fuel' =>
        do st' <~ iteration fuel' length max st;
        for_loop fuel' length max st'
    end
  else Done st.

(** [int length = 1 << stages;] and [int max = length - 1;]. *)
Definition length_of (stages : Z) : Z := to_int32 (Z.shiftl 1 stages).
Definition max_of (stages : Z) : Z := to_int32 (length_of stages - 1).

(** The state on entry to the [for] loop: [index = 1], [index_reversed = 0]. *)
Definition initial (data : list Z) : state := mkState 1 0 data.

(** The routine on the buffer [data]; its result is the buffer on return. *)
Definition WebRtcSpl_ComplexBitReverse (fuel : nat) (data : list Z) (stages : Z)
  : outcome (list Z) :=
  let length := length_of stages in
  let max := max_of stages in
  do st <~ for_loop fuel length max (initial data);
  Done (complex_data st).

(** The loop heads a run passes through: [st'] follows [st] when the loop
    condition holds at [st] and the body takes [st] to [st']. *)
Definition loop_step (length max : Z) (st st' : state) : Prop :=
  index st <= max /\ exists fuel, iteration fuel length max st = Done st'.

Definition reached (data : list Z) (stages : Z) (st : state) : Prop :=
  rtc (loop_step (length_of stages) (max_of stages)) (initial data) st.

(** ** Bit reversal, as the specification words it *)

(** The value whose [n]-bit binary representation is that of [i] read
    backwards. *)
Fixpoint reverse_bits_nat (n : nat) (i : Z) : Z :=
  match n with
  | O => 0
  | S k => (i mod 2) * 2 ^ Z.of_nat k + reverse_bits_nat k (i / 2)
  end.

Definition reverse_bits (i stages : Z) : Z := reverse_bits_nat (Z.to_nat stages) i.

(** ** The reordering and the loop invariant *)

(** The 16-bit half [c] (0: real, 1: imaginary) of the sample at index [s]. *)
Definition half (p : list Z) (s c : Z) : option Z := p !! Z.to_nat (2 * s + c).

(** The reordering of sample indices the routine is to realise: bit
    reversal among the first [2 ^ stages], nothing beyond. *)
Definition permuted (stages s : Z) : Z :=
  if (0 <=? s) && (s <? 2 ^ stages) then reverse_bits s stages else s.

(** Where the sample now at index [s] was on entry, once the loop is done
    with the indices up to [m]: a pair of mirrored indices has been
    exchanged as soon as the smaller of the two has been visited. *)
Definition source_of (stages m s : Z) : Z :=
  if (0 <=? s) && (s <? 2 ^ stages) && (Z.min s (reverse_bits s stages) <=? m)
  then reverse_bits s stages else s.

(** The exchange of the indices [i] and [r]. *)
Definition transpose (i r s : Z) : Z :=
  if s =? i then r else if s =? r then i else s.

(** What holds of the variables at the head of the loop, [orig] being the
    buffer on entry. *)
Record loop_invariant (orig : list Z) (stages : Z) (st : state) : Prop := {
  inv_index : 1 <= index st <= 2 ^ stages;
  inv_reversed : index_reversed st = reverse_bits (index st - 1) stages;
  inv_length : length (complex_data st) = length orig;
  inv_data : forall s c, 0 <= s -> 0 <= c <= 1 ->
    half (complex_data st) s c = half orig (source_of stages (index st - 1) s) c
}.

(** A buffer the routine may be given for [stages]: 16-bit values, at
    least [2 ^ stages] complex samples of them. *)
Definition valid_buffer (p : list Z) (stages : Z) : Prop :=
  Forall is_int16 p /\ 2 * 2 ^ stages <= Z.of_nat (length p).

(** ** Buffers for stage counts beyond the 32-bit [int] *)

(** [n] 16-bit zeros. *)
Definition zeros (n : Z) : list Z := replicate (Z.to_nat n) 0.

(** [2 ^ 31] complex samples, all zero. *)
Definition buffer_31 : list Z := zeros (2 * 2 ^ 31).

(** [2 ^ 32] complex samples: (0, 0), (1, 1), (2, 2), then zeros. *)
Definition buffer_32 : list Z := 0 :: 0 :: 1 :: 1 :: 2 :: 2 :: zeros (2 * 2 ^ 32 - 6).

(** Linear arithmetic with the quotients and remainders spelled out. *)
Ltac div_lia := Z.div_mod_to_equations; lia.

(** ** Runs on small inputs *)

Example reverse_bits_table :
  map (fun i => reverse_bits i 3) [0; 1; 2; 3; 4; 5; 6; 7] = [0; 4; 2; 6; 1; 5; 3; 7].
Proof. reflexivity. Qed.

Example run_stages_2 :
  WebRtcSpl_ComplexBitReverse 10 [1; -1; 2; -2; 3; -3; 4; -4] 2
  = Done [1; -1; 3; -3; 2; -2; 4; -4].
Proof. vm_compute. reflexivity. Qed.

(** ** Machine integers: ranges and round trips *)

Lemma to_int32_id z : is_int32 z -> to_int32 z = z.
Proof. unfold is_int32, to_int32. intros H. rewrite Z.mod_small; lia. Qed.

Lemma to_int16_id z : is_int16 z -> to_int16 z = z.
Proof. unfold is_int16, to_int16. intros H. rewrite Z.mod_small; lia. Qed.

Lemma unpack_pack re im :
  is_int16 re -> is_int16 im -> unpack (pack re im) = (re, im).
Proof.
  unfold is_int16. intros Hre Him. unfold unpack, pack.
  pose proof (Z.mod_pos_bound re 65536 ltac:(lia)) as Hlow.
  rewrite to_int32_id by (unfold is_int32; lia).
  rewrite Z.shiftr_div_pow2 by lia. change (2 ^ 16) with 65536.
  f_equal; unfold to_int16.
  - replace (re mod 65536 + im * 65536 + 32768)
      with (re + 32768 + (im + (re mod 65536 - re) / 65536) * 65536)
      by (Z.div_mod_to_equations; lia).
    rewrite Z_mod_plus_full, Z.mod_small; lia.
  - rewrite Z.div_add, (Z.div_small (re mod 65536)) by lia.
    rewrite Z.mod_small; lia.
Qed.

Lemma pow2_pos n : 0 <= n -> 0 < 2 ^ n.
Proof. intros. apply Z.pow_pos_nonneg; lia. Qed.

Lemma pow2_le_30 n : 0 <= n <= 30 -> 1 <= 2 ^ n <= 1073741824.
Proof.
  intros H. split.
  - pose proof (pow2_pos n). lia.
  - change 1073741824 with (2 ^ 30). apply Z.pow_le_mono_r; lia.
Qed.

Lemma length_of_small stages : 0 <= stages <= 30 -> length_of stages = 2 ^ stages.
Proof.
  intros H. unfold length_of. rewrite Z.shiftl_1_l.
  apply to_int32_id. pose proof (pow2_le_30 stages H). unfold is_int32. lia.
Qed.

Lemma max_of_small stages : 0 <= stages <= 30 -> max_of stages = 2 ^ stages - 1.
Proof.
  intros H. unfold max_of. rewrite length_of_small by done.
  apply to_int32_id. pose proof (pow2_le_30 stages H). unfold is_int32. lia.
Qed.

(** ** Bit reversal *)

Lemma reverse_bits_nat_bound n i : 0 <= reverse_bits_nat n i < 2 ^ Z.of_nat n.
Proof.
  revert i. induction n as [|k IH]; intros i.
  - simpl. lia.
  - cbn [reverse_bits_nat]. rewrite Nat2Z.inj_succ, Z.pow_succ_r by lia.
    specialize (IH (i / 2)). pose proof (Z.mod_pos_bound i 2). nia.
Qed.

Lemma reverse_bits_nat_0 n : reverse_bits_nat n 0 = 0.
Proof. induction n as [|k IH]; [done|]. cbn [reverse_bits_nat]. rewrite Zdiv_0_l, IH. done. Qed.

(** Bit [k] of the reversal is bit [n - 1 - k] of the argument. *)
Lemma reverse_bits_nat_testbit n i k :
  0 <= k < Z.of_nat n ->
  Z.testbit (reverse_bits_nat n i) k = Z.testbit i (Z.of_nat n - 1 - k).
Proof.
  revert i k. induction n as [|m IH]; intros i k Hk; [lia|].
  cbn [reverse_bits_nat].
  pose proof (reverse_bits_nat_bound m (i / 2)) as Hb.
  pose proof (pow2_pos (Z.of_nat m) ltac:(lia)) as Hp.
  set (r := reverse_bits_nat m (i / 2)) in *.
  destruct (Z.eq_dec k (Z.of_nat m)) as [->|Hne].
  - replace (Z.of_nat (S m) - 1 - Z.of_nat m) with 0 by lia.
    rewrite <- (Z.add_0_l (Z.of_nat m)) at 2.
    rewrite <- Z.div_pow2_bits by lia.
    rewrite Z.div_add_l by lia. rewrite (Z.div_small r) by lia.
    rewrite Z.add_0_r, !Z.bit0_odd.
    rewrite Zmod_odd. destruct (Z.odd i); done.
  - rewrite <- (Z.mod_pow2_bits_low _ (Z.of_nat m)) by lia.
    rewrite Z.add_comm, Z_mod_plus_full, Z.mod_small by lia.
    unfold r. rewrite IH by lia.
    change (i / 2) with (i / 2 ^ 1). rewrite Z.div_pow2_bits by lia. f_equal. lia.
Qed.

Lemma testbit_above n x k : 0 <= x < 2 ^ n -> n <= k -> Z.testbit x k = false.
Proof.
  intros Hx Hk. destruct (Z_lt_le_dec n 0) as [Hn|Hn].
  - rewrite Z.pow_neg_r in Hx by done. lia.
  - rewrite <- (Z.mod_small x (2 ^ n)) by done. apply Z.mod_pow2_bits_high. lia.
Qed.

Lemma reverse_bits_nat_involutive n i :
  0 <= i < 2 ^ Z.of_nat n -> reverse_bits_nat n (reverse_bits_nat n i) = i.
Proof.
  intros Hi. apply Z.bits_inj'. intros k Hk.
  destruct (Z_lt_le_dec k (Z.of_nat n)) as [Hlt|Hge].
  - rewrite !reverse_bits_nat_testbit by lia. f_equal. lia.
  - rewrite (testbit_above (Z.of_nat n) i) by done.
    apply (testbit_above (Z.of_nat n)); [apply reverse_bits_nat_bound | done].
Qed.

Section BitReversal.
Variable stages : Z.
Hypothesis stages_nonneg : 0 <= stages.

Lemma reverse_bits_bound i : 0 <= reverse_bits i stages < 2 ^ stages.
Proof.
  unfold reverse_bits. pose proof (reverse_bits_nat_bound (Z.to_nat stages) i).
  rewrite Z2Nat.id in *; done.
Qed.

Lemma reverse_bits_involutive i :
  0 <= i < 2 ^ stages -> reverse_bits (reverse_bits i stages) stages = i.
Proof.
  intros Hi. unfold reverse_bits. apply reverse_bits_nat_involutive.
  rewrite Z2Nat.id; done.
Qed.

Lemma reverse_bits_testbit i k :
  0 <= k < stages ->
  Z.testbit (reverse_bits i stages) k = Z.testbit i (stages - 1 - k).
Proof.
  intros Hk. unfold reverse_bits. rewrite reverse_bits_nat_testbit by lia.
  rewrite Z2Nat.id; done.
Qed.

Lemma reverse_bits_0 : reverse_bits 0 stages = 0.
Proof. apply reverse_bits_nat_0. Qed.

Lemma reverse_bits_inj i j :
  0 <= i < 2 ^ stages -> 0 <= j < 2 ^ stages ->
  reverse_bits i stages = reverse_bits j stages -> i = j.
Proof.
  intros Hi Hj E. rewrite <- (reverse_bits_involutive i), <- (reverse_bits_involutive j) by done.
  congruence.
Qed.
End BitReversal.

(** ** The search for [bit] and the reversed counter *)


Lemma find_bit_ext fuel bit max r max' r' :
  to_int32 (max - r) = to_int32 (max' - r') ->
  find_bit fuel bit max r = find_bit fuel bit max' r'.
Proof.
  intros E. revert bit. induction fuel as [|f IH]; intros bit; [done|].
  cbn [find_bit]. rewrite E, IH. done.
Qed.

Lemma find_bit_mono fuel fuel' bit max r b :
  find_bit fuel bit max r = Done b -> (fuel <= fuel')%nat ->
  find_bit fuel' bit max r = Done b.
Proof.
  revert fuel' bit. induction fuel as [|f IH]; intros fuel' bit H Hle; [done|].
  destruct fuel' as [|f']; [lia|]. cbn [find_bit] in *.
  destruct (_ >? _); [apply IH; [done|lia] | done].
Qed.

Lemma find_bit_in_bounds fuel bit max r : find_bit fuel bit max r <> OutOfBounds.
Proof.
  revert bit. induction fuel as [|f IH]; intros bit; [done|].
  cbn [find_bit]. destruct (_ >? _); [apply IH | done].
Qed.

(** From the reversal of [j] the search stops at the power of two that the
    increment of the reversed counter has to set. *)
Lemma find_bit_reverse n j fuel :
  Z.of_nat n <= 30 -> 0 <= j -> j + 1 < 2 ^ Z.of_nat n -> (n <= fuel)%nat ->
  exists m,
    0 <= m < Z.of_nat n /\
    find_bit fuel (2 ^ Z.of_nat n) (2 ^ Z.of_nat n - 1) (reverse_bits_nat n j) = Done (2 ^ m) /\
    reverse_bits_nat n j mod 2 ^ m + 2 ^ m = reverse_bits_nat n (j + 1).
Proof.
  revert j fuel. induction n as [|k IH]; intros j fuel Hn Hj Hlt Hfuel.
  - simpl in Hlt. lia.
  - destruct fuel as [|f]; [lia|].
    pose proof (pow2_le_30 (Z.of_nat k) ltac:(lia)) as Hp.
    pose proof (reverse_bits_nat_bound k (j / 2)) as Hb.
    assert (E2 : 2 ^ Z.of_nat (S k) = 2 * 2 ^ Z.of_nat k)
      by (rewrite Nat2Z.inj_succ, Z.pow_succ_r; lia).
    assert (Pk : 2 ^ Z.of_nat k <= 536870912).
    { change 536870912 with (2 ^ 29). apply Z.pow_le_mono_r; lia. }
    cbn [find_bit reverse_bits_nat].
    rewrite Z.shiftr_div_pow2 by lia. rewrite E2 in *.
    replace (2 * 2 ^ Z.of_nat k / 2 ^ 1) with (2 ^ Z.of_nat k)
      by (change (2 ^ 1) with 2; rewrite Z.mul_comm, Z.div_mul; lia).
    set (P := 2 ^ Z.of_nat k) in *. set (r0 := reverse_bits_nat k (j / 2)) in *.
    rewrite to_int32_id by (unfold is_int32; pose proof (Z.mod_pos_bound j 2); nia).
    destruct (Z.eq_dec (j mod 2) 0) as [Hev|Hodd].
    + (* the top bit of the reversal is clear: stop at once *)
      exists (Z.of_nat k). rewrite Hev. fold P.
      destruct (Z.gtb_spec P (2 * P - 1 - (0 * P + r0))); [lia|].
      split; [lia|]. split; [done|].
      replace ((j + 1) mod 2) with 1 by (clear - Hev; div_lia).
      replace ((j + 1) / 2) with (j / 2) by (clear - Hev; div_lia). fold r0.
      rewrite Z.mod_small by lia. lia.
    + (* the top bit is set: go on within the lower [k] bits *)
      assert (Hj1 : j mod 2 = 1) by (pose proof (Z.mod_pos_bound j 2); lia).
      rewrite Hj1.
      destruct (Z.gtb_spec P (2 * P - 1 - (1 * P + r0))); [|lia].
      rewrite (find_bit_ext f P _ _ (P - 1) r0) by (f_equal; lia).
      destruct (IH (j / 2) f) as (m & Hm & Hfind & Hrev);
        [lia | clear - Hj; div_lia | clear - Hj1 Hlt; div_lia | lia |].
      exists m. split; [lia|]. split; [done|].
      replace ((j + 1) mod 2) with 0 by (clear - Hj1; div_lia).
      replace ((j + 1) / 2) with (j / 2 + 1) by (clear - Hj1; div_lia).
      rewrite <- Hrev. fold r0.
      replace (1 * P) with (2 ^ (Z.of_nat k - m) * 2 ^ m).
      2:{ rewrite <- Z.pow_add_r by lia. rewrite Z.mul_1_l. unfold P. f_equal; lia. }
      rewrite (Z.add_comm _ r0), Z_mod_plus_full. lia.
Qed.

Lemma advance_reverse stages j fuel :
  0 <= stages <= 30 -> 0 <= j -> j + 1 < 2 ^ stages -> (Z.to_nat stages <= fuel)%nat ->
  advance fuel (length_of stages) (max_of stages) (reverse_bits j stages)
  = Done (reverse_bits (j + 1) stages).
Proof.
  intros Hs Hj Hlt Hfuel. unfold advance.
  rewrite length_of_small, max_of_small by done.
  destruct (find_bit_reverse (Z.to_nat stages) j fuel) as (m & Hm & Hfind & Hrev);
    rewrite ?Z2Nat.id; try lia.
  rewrite Z2Nat.id in * by lia. unfold reverse_bits. rewrite Hfind. cbn [bind].
  pose proof (pow2_le_30 m ltac:(lia)) as Hpm.
  rewrite (to_int32_id (2 ^ m - 1)) by (unfold is_int32; lia).
  replace (2 ^ m - 1) with (Z.ones m) by (rewrite Z.ones_equiv; lia).
  rewrite Z.land_ones, Hrev by lia.
  pose proof (reverse_bits_nat_bound (Z.to_nat stages) (j + 1)) as Hb.
  rewrite Z2Nat.id in Hb by lia. pose proof (pow2_le_30 stages Hs).
  rewrite to_int32_id by (unfold is_int32; lia). done.
Qed.

Lemma advance_mono fuel fuel' length max r v :
  advance fuel length max r = Done v -> (fuel <= fuel')%nat ->
  advance fuel' length max r = Done v.
Proof.
  unfold advance. intros H Hle.
  destruct (find_bit fuel length max r) as [b| |] eqn:E; try done.
  rewrite (find_bit_mono _ _ _ _ _ _ E Hle). done.
Qed.

Lemma advance_in_bounds fuel length max r : advance fuel length max r <> OutOfBounds.
Proof.
  unfold advance. pose proof (find_bit_in_bounds fuel length max r).
  destruct (find_bit fuel length max r); done.
Qed.

(** ** Reads and writes through the 32-bit view *)

Lemma valid_lookup (p : list Z) k :
  Forall is_int16 p -> (k < length p)%nat -> exists x, p !! k = Some x /\ is_int16 x.
Proof.
  intros Hp Hk. destruct (lookup_lt_is_Some_2 p k Hk) as [x Hx].
  exists x. split; [done|]. eapply Forall_lookup_1; eauto.
Qed.

Lemma load32_pair (p : list Z) i re im :
  0 <= i -> half p i 0 = Some re -> half p i 1 = Some im ->
  load32 p i = Done (pack re im).
Proof.
  unfold half, load32. intros Hi Hre Him.
  destruct (Z.ltb_spec i 0); [lia|].
  rewrite Z.add_0_r in Hre. rewrite Hre, Him. done.
Qed.

Lemma sample_pair (p : list Z) i re im :
  0 <= i -> half p i 0 = Some re -> half p i 1 = Some im ->
  sample p i = Some (re, im).
Proof.
  unfold half, sample. intros Hi Hre Him.
  destruct (Z.ltb_spec i 0); [lia|].
  rewrite Z.add_0_r in Hre. rewrite Hre, Him. done.
Qed.

Lemma store32_pair (p : list Z) i re im :
  0 <= i -> 2 * i + 2 <= Z.of_nat (length p) -> is_int16 re -> is_int16 im ->
  store32 p i (pack re im)
  = Done (<[Z.to_nat (2 * i + 1) := im]> (<[Z.to_nat (2 * i) := re]> p)).
Proof.
  intros Hi Hlen Hre Him. unfold store32.
  destruct (Z.ltb_spec i 0); [lia|].
  destruct (Z.ltb_spec (Z.of_nat (length p)) (2 * i + 2)); [lia|].
  cbn [orb]. rewrite unpack_pack by done. done.
Qed.

(** The four accesses of the exchange, on two distinct samples inside the
    buffer: they succeed, and the halves of the two samples change places. *)
Lemma exchange (p : list Z) i r :
  Forall is_int16 p -> 0 <= i -> 0 <= r -> i <> r ->
  2 * i + 2 <= Z.of_nat (length p) -> 2 * r + 2 <= Z.of_nat (length p) ->
  exists temp v d1 d2,
    load32 p i = Done temp /\ load32 p r = Done v /\
    store32 p i v = Done d1 /\ store32 d1 r temp = Done d2 /\
    length d2 = length p /\
    forall s c, 0 <= s -> 0 <= c <= 1 -> half d2 s c = half p (transpose i r s) c.
Proof.
  intros Hp Hi Hr Hne Hli Hlr.
  destruct (valid_lookup p (Z.to_nat (2 * i + 0)) Hp) as (re_i & Ei0 & Hi0); [lia|].
  destruct (valid_lookup p (Z.to_nat (2 * i + 1)) Hp) as (im_i & Ei1 & Hi1); [lia|].
  destruct (valid_lookup p (Z.to_nat (2 * r + 0)) Hp) as (re_r & Er0 & Hr0); [lia|].
  destruct (valid_lookup p (Z.to_nat (2 * r + 1)) Hp) as (im_r & Er1 & Hr1); [lia|].
  eexists _, _, _, _.
  split; [apply (load32_pair p i re_i im_i); done|].
  split; [apply (load32_pair p r re_r im_r); done|].
  split; [apply store32_pair; done|].
  split; [apply store32_pair; rewrite ?length_insert; done|].
  split; [rewrite !length_insert; done|].
  intros s c Hs Hc. unfold half, transpose.
  assert (Hc' : c = 0 \/ c = 1) by lia.
  rewrite Z.add_0_r in Ei0, Er0.
  destruct (Z.eqb_spec s i) as [->|Hsi]; [|destruct (Z.eqb_spec s r) as [->|Hsr]];
    destruct Hc' as [-> | ->]; rewrite ?Z.add_0_r;
    rewrite ?list_lookup_insert_ne by lia;
    rewrite ?list_lookup_insert_eq by (rewrite ?length_insert; lia); done.
Qed.

(** ** The loop invariant *)

Lemma for_loop_unfold fuel length max st :
  for_loop fuel length max st
  = if index st <=? max then
      match fuel with
      | O => OutOfFuel
      | S fuel' => do st' <~ iteration fuel' length max st; for_loop fuel' length max st'
      end
    else Done st.
Proof. destruct fuel; done. Qed.

Lemma iteration_mono fuel fuel' length max st st' :
  iteration fuel length max st = Done st' -> (fuel <= fuel')%nat ->
  iteration fuel' length max st = Done st'.
Proof.
  unfold iteration. intros H Hle.
  destruct (advance fuel length max (index_reversed st)) as [v| |] eqn:E; try done.
  rewrite (advance_mono _ _ _ _ _ _ E Hle). done.
Qed.

Section Invariant.
Variable stages : Z.
Hypothesis stages_range : 0 <= stages <= 30.
Variable orig : list Z.
Hypothesis orig_valid : valid_buffer orig stages.

Lemma stages_not_negative : 0 <= stages.
Proof. apply stages_range. Qed.

Lemma source_of_0 s : source_of stages 0 s = s.
Proof.
  unfold source_of.
  destruct (Z.leb_spec 0 s); [|done].
  destruct (Z.ltb_spec s (2 ^ stages)); [|done].
  destruct (Z.leb_spec (Z.min s (reverse_bits s stages)) 0) as [Hmin|]; [|done].
  cbn [andb]. pose proof (reverse_bits_bound stages stages_not_negative s).
  assert (Hz : s = 0 \/ reverse_bits s stages = 0) by lia.
  destruct Hz as [-> | Hz].
  - apply reverse_bits_0.
  - rewrite <- (reverse_bits_involutive stages stages_not_negative s) at 2 by lia.
    rewrite Hz, reverse_bits_0. done.
Qed.

Lemma source_of_last s : source_of stages (2 ^ stages - 1) s = permuted stages s.
Proof.
  unfold source_of, permuted.
  destruct (Z.leb_spec 0 s); [|done].
  destruct (Z.ltb_spec s (2 ^ stages)); [|done].
  destruct (Z.leb_spec (Z.min s (reverse_bits s stages)) (2 ^ stages - 1)); [done|lia].
Qed.

(** Nothing moves at an index whose mirror is not above it. *)
Lemma source_of_skip i s :
  1 <= i < 2 ^ stages -> reverse_bits i stages <= i ->
  source_of stages i s = source_of stages (i - 1) s.
Proof.
  intros Hi Hle. unfold source_of.
  destruct (Z.leb_spec 0 s); [|done].
  destruct (Z.ltb_spec s (2 ^ stages)); [|done]. cbn [andb].
  pose proof (reverse_bits_bound stages stages_not_negative s).
  destruct (Z.leb_spec (Z.min s (reverse_bits s stages)) i);
    destruct (Z.leb_spec (Z.min s (reverse_bits s stages)) (i - 1)); try done; try lia.
  assert (Hz : s = i \/ reverse_bits s stages = i) by lia.
  destruct Hz as [-> | Hz]; [lia|].
  assert (s = reverse_bits i stages)
    by (rewrite <- Hz; symmetry; apply reverse_bits_involutive; lia).
  lia.
Qed.

(** The exchange at [i] and its mirror above it moves exactly these two. *)
Lemma source_of_swap i s :
  1 <= i < 2 ^ stages -> i < reverse_bits i stages -> 0 <= s ->
  source_of stages (i - 1) (transpose i (reverse_bits i stages) s) = source_of stages i s.
Proof.
  intros Hi Hlt Hs. unfold transpose.
  pose proof (reverse_bits_bound stages stages_not_negative i) as Hbi.
  pose proof (reverse_bits_involutive stages stages_not_negative i ltac:(lia)) as Hinv.
  destruct (Z.eqb_spec s i) as [->|Hsi];
    [|destruct (Z.eqb_spec s (reverse_bits i stages)) as [->|Hsr]];
    unfold source_of; rewrite ?Hinv.
  - destruct (Z.leb_spec 0 (reverse_bits i stages)); [|lia].
    destruct (Z.ltb_spec (reverse_bits i stages) (2 ^ stages)); [|lia].
    destruct (Z.leb_spec 0 i); [|lia].
    destruct (Z.ltb_spec i (2 ^ stages)); [|lia]. cbn [andb].
    destruct (Z.leb_spec (Z.min (reverse_bits i stages) i) (i - 1)); [lia|].
    destruct (Z.leb_spec (Z.min i (reverse_bits i stages)) i); [done|lia].
  - destruct (Z.leb_spec 0 (reverse_bits i stages)); [|lia].
    destruct (Z.ltb_spec (reverse_bits i stages) (2 ^ stages)); [|lia].
    destruct (Z.leb_spec 0 i); [|lia].
    destruct (Z.ltb_spec i (2 ^ stages)); [|lia]. cbn [andb].
    destruct (Z.leb_spec (Z.min i (reverse_bits i stages)) (i - 1)); [lia|].
    destruct (Z.leb_spec (Z.min (reverse_bits i stages) i) i); [done|lia].
  - destruct (Z.leb_spec 0 s); [|done].
    destruct (Z.ltb_spec s (2 ^ stages)); [|done]. cbn [andb].
    pose proof (reverse_bits_bound stages stages_not_negative s).
    destruct (Z.leb_spec (Z.min s (reverse_bits s stages)) i);
      destruct (Z.leb_spec (Z.min s (reverse_bits s stages)) (i - 1)); try done; try lia.
    assert (Hz : reverse_bits s stages = i) by lia.
    exfalso. apply Hsr. rewrite <- Hz. symmetry.
    apply reverse_bits_involutive; lia.
Qed.

Lemma invariant_initial : loop_invariant orig stages (initial orig).
Proof.
  pose proof (pow2_le_30 stages stages_range).
  split; cbn [initial index index_reversed complex_data].
  - lia.
  - change (1 - 1) with 0. symmetry. apply reverse_bits_0.
  - done.
  - intros s c _ _. change (1 - 1) with 0. rewrite source_of_0. done.
Qed.

(** The values held under the invariant are those of the buffer on entry. *)
Lemma invariant_int16 st :
  loop_invariant orig stages st -> Forall is_int16 (complex_data st).
Proof.
  intros Hinv. apply Forall_lookup_2. intros k x Hk.
  pose proof (inv_data _ _ _ Hinv (Z.of_nat k / 2) (Z.of_nat k mod 2)
                ltac:(div_lia) ltac:(div_lia)) as Hd.
  unfold half in Hd.
  replace (2 * (Z.of_nat k / 2) + Z.of_nat k mod 2) with (Z.of_nat k) in Hd by div_lia.
  rewrite Nat2Z.id, Hk in Hd. symmetry in Hd.
  destruct orig_valid as [Hall _]. eapply Forall_lookup_1; eauto.
Qed.

(** One pass of the body under the invariant: it completes, moves to the
    next index and keeps the invariant. *)
Lemma invariant_step st fuel :
  loop_invariant orig stages st -> index st <= max_of stages ->
  (Z.to_nat stages <= fuel)%nat ->
  exists st',
    iteration fuel (length_of stages) (max_of stages) st = Done st' /\
    index st' = index st + 1 /\
    index_reversed st' = reverse_bits (index st) stages /\
    loop_invariant orig stages st'.
Proof.
  intros Hinv Hle Hfuel. destruct st as [i r d].
  destruct Hinv as [Hidx Hrev Hlen Hdata].
  cbn [index index_reversed complex_data] in *.
  rewrite max_of_small in Hle by done.
  pose proof (pow2_le_30 stages stages_range) as Hp.
  pose proof (reverse_bits_bound stages stages_not_negative i) as Hb.
  destruct orig_valid as [Hall Hsize].
  unfold iteration. cbn [index index_reversed complex_data].
  rewrite Hrev, advance_reverse by (done || lia).
  replace (i - 1 + 1) with i by lia. cbn [bind].
  rewrite (to_int32_id (i + 1)) by (unfold is_int32; lia).
  destruct (Z.leb_spec (reverse_bits i stages) i) as [Hskip|Hswap].
  - eexists. split; [done|]. cbn [index index_reversed complex_data].
    split; [done|]. split; [done|].
    split; cbn [index index_reversed complex_data];
      replace (i + 1 - 1) with i by lia; try done; try lia.
    intros s c Hs Hc. rewrite source_of_skip by lia. auto.
  - assert (Hd16 : Forall is_int16 d).
    { apply (invariant_int16 (mkState i r d)). split; done. }
    destruct (exchange d i (reverse_bits i stages) Hd16)
      as (temp & v & d1 & d2 & E1 & E2 & E3 & E4 & Hlen2 & Hd2); try lia.
    rewrite E1, E2. cbn [bind]. rewrite E3. cbn [bind]. rewrite E4. cbn [bind].
    eexists. split; [done|]. cbn [index index_reversed complex_data].
    split; [done|]. split; [done|].
    split; cbn [index index_reversed complex_data];
      replace (i + 1 - 1) with i by lia; try done; try lia.
    intros s c Hs Hc. rewrite Hd2 by done.
    rewrite Hdata; [|unfold transpose; repeat case_match; lia|done].
    rewrite source_of_swap by lia. done.
Qed.

(** From a loop head under the invariant the loop runs to its end. *)
Lemma for_loop_runs n st fuel :
  loop_invariant orig stages st ->
  Z.of_nat n = 2 ^ stages - index st ->
  (n + Z.to_nat stages <= fuel)%nat ->
  exists st',
    for_loop fuel (length_of stages) (max_of stages) st = Done st' /\
    index st' = 2 ^ stages /\
    loop_invariant orig stages st' /\
    rtc (loop_step (length_of stages) (max_of stages)) st st'.
Proof.
  revert st fuel. induction n as [|n IH]; intros st fuel Hinv Hn Hfuel.
  - exists st. rewrite for_loop_unfold, max_of_small by done.
    destruct (Z.leb_spec (index st) (2 ^ stages - 1)); [lia|].
    split; [done|]. split; [lia|]. split; [done|]. apply rtc_refl.
  - destruct fuel as [|f]; [lia|].
    assert (Hle : index st <= max_of stages) by (rewrite max_of_small by done; lia).
    destruct (invariant_step st f Hinv Hle) as (st1 & Hit & Hidx & _ & Hinv1); [lia|].
    destruct (IH st1 f Hinv1) as (st' & Hrun & Hend & Hinv' & Hrtc); [lia | lia |].
    exists st'. rewrite for_loop_unfold.
    destruct (Z.leb_spec (index st) (max_of stages)); [|lia].
    rewrite Hit. cbn [bind]. split; [done|]. split; [done|]. split; [done|].
    eapply rtc_l; [|exact Hrtc]. split; [done|]. eauto.
Qed.

(** Every loop head a run passes through satisfies the invariant. *)
Lemma reached_invariant st :
  reached orig stages st -> loop_invariant orig stages st.
Proof.
  unfold reached. revert st. apply rtc_ind_r.
  - apply invariant_initial.
  - intros y z _ [Hle [fuel Hit]] IH.
    destruct (invariant_step y (fuel + Z.to_nat stages) IH Hle)
      as (st' & Hit' & _ & _ & Hinv'); [lia|].
    rewrite (iteration_mono fuel _ _ _ _ _ Hit) in Hit' by lia.
    congruence.
Qed.

(** No run from a loop head under the invariant leaves the buffer. *)
Lemma for_loop_in_bounds fuel st :
  loop_invariant orig stages st ->
  for_loop fuel (length_of stages) (max_of stages) st <> OutOfBounds.
Proof.
  revert st. induction fuel as [|f IH]; intros st Hinv; rewrite for_loop_unfold;
    destruct (Z.leb_spec (index st) (max_of stages)) as [Hle|]; try done.
  destruct (iteration f (length_of stages) (max_of stages) st) as [st1| |] eqn:Hit;
    cbn [bind]; [| done |].
  - apply IH.
    destruct (invariant_step st (f + Z.to_nat stages) Hinv Hle)
      as (st' & Hit' & _ & _ & Hinv'); [lia|].
    rewrite (iteration_mono f _ _ _ _ _ Hit) in Hit' by lia.
    congruence.
  - exfalso. destruct (invariant_step st (f + Z.to_nat stages) Hinv Hle)
      as (st' & Hit' & _); [lia|].
    unfold iteration in Hit, Hit'.
    pose proof (advance_in_bounds f (length_of stages) (max_of stages) (index_reversed st)).
    destruct (advance f (length_of stages) (max_of stages) (index_reversed st))
      as [v| |] eqn:E; try done.
    rewrite (advance_mono _ (f + Z.to_nat stages) _ _ _ _ E) in Hit' by lia.
    cbn [bind] in Hit, Hit'. rewrite Hit in Hit'. done.
Qed.
End Invariant.

(** ** The whole routine *)

Lemma permuted_range stages s :
  0 <= stages -> 0 <= s -> 0 <= permuted stages s /\ (s < 2 ^ stages -> permuted stages s < 2 ^ stages).
Proof.
  intros Hst Hs. unfold permuted. pose proof (reverse_bits_bound stages Hst s).
  destruct (Z.leb_spec 0 s); [|lia]. destruct (Z.ltb_spec s (2 ^ stages)); cbn [andb]; lia.
Qed.

Lemma permuted_inside stages s :
  0 <= s < 2 ^ stages -> permuted stages s = reverse_bits s stages.
Proof.
  intros Hs. unfold permuted. destruct (Z.leb_spec 0 s); [|lia].
  destruct (Z.ltb_spec s (2 ^ stages)); [done|lia].
Qed.

Lemma permuted_outside stages s :
  ~ 0 <= s < 2 ^ stages -> permuted stages s = s.
Proof.
  intros Hs. unfold permuted. destruct (Z.leb_spec 0 s); [|done].
  destruct (Z.ltb_spec s (2 ^ stages)); [lia|done].
Qed.

Lemma permuted_involutive stages s :
  0 <= stages -> permuted stages (permuted stages s) = s.
Proof.
  intros Hst. destruct (decide (0 <= s < 2 ^ stages)) as [Hs|Hs].
  - pose proof (reverse_bits_bound stages Hst s).
    rewrite (permuted_inside stages s), permuted_inside by done.
    apply reverse_bits_involutive; done.
  - rewrite (permuted_outside stages s) by done. apply permuted_outside. done.
Qed.

(** Among the first [2 ^ stages] indices the reordering is a permutation. *)
Lemma permuted_on_prefix stages n :
  0 <= stages -> n = 2 ^ stages -> permuted stages <$> seqZ 0 n ≡ₚ seqZ 0 n.
Proof.
  intros Hst ->. apply NoDup_Permutation.
  - apply NoDup_fmap_2_strong; [|apply NoDup_seqZ].
    intros x y _ _ E. rewrite <- (permuted_involutive stages x Hst), E.
    apply permuted_involutive. done.
  - apply NoDup_seqZ.
  - intros x. rewrite list_elem_of_fmap. setoid_rewrite elem_of_seqZ. split.
    + intros (y & -> & Hy). pose proof (permuted_range stages y Hst). lia.
    + intros Hx. exists (permuted stages x). split.
      * symmetry. apply permuted_involutive. done.
      * pose proof (permuted_range stages x Hst). lia.
Qed.

(** Two buffers that agree on every half are the same buffer. *)
Lemma halves_ext (p q : list Z) :
  (forall s c, 0 <= s -> 0 <= c <= 1 -> half p s c = half q s c) -> p = q.
Proof.
  intros H. apply list_eq. intros k.
  specialize (H (Z.of_nat k / 2) (Z.of_nat k mod 2) ltac:(div_lia) ltac:(div_lia)).
  unfold half in H.
  replace (2 * (Z.of_nat k / 2) + Z.of_nat k mod 2) with (Z.of_nat k) in H by div_lia.
  rewrite Nat2Z.id in H. done.
Qed.

Lemma load32_halves (p q : list Z) i j :
  0 <= i -> 0 <= j -> (forall c, 0 <= c <= 1 -> half p i c = half q j c) ->
  load32 p i = load32 q j.
Proof.
  intros Hi Hj H. unfold load32.
  destruct (Z.ltb_spec i 0); [lia|]. destruct (Z.ltb_spec j 0); [lia|].
  pose proof (H 0 ltac:(lia)) as Ere. pose proof (H 1 ltac:(lia)) as Eim.
  unfold half in Ere, Eim. rewrite !Z.add_0_r in Ere. rewrite Ere, Eim. done.
Qed.

Lemma sample_halves (p q : list Z) i j :
  0 <= i -> 0 <= j -> (forall c, 0 <= c <= 1 -> half p i c = half q j c) ->
  sample p i = sample q j.
Proof.
  intros Hi Hj H. unfold sample.
  destruct (Z.ltb_spec i 0); [lia|]. destruct (Z.ltb_spec j 0); [lia|].
  pose proof (H 0 ltac:(lia)) as Ere. pose proof (H 1 ltac:(lia)) as Eim.
  unfold half in Ere, Eim. rewrite !Z.add_0_r in Ere. rewrite Ere, Eim. done.
Qed.

(** Inside a valid buffer every sample is there, whole. *)
Lemma sample_inside (p : list Z) stages i :
  valid_buffer p stages -> 0 <= i < 2 ^ stages ->
  exists re im, is_int16 re /\ is_int16 im /\
    sample p i = Some (re, im) /\ load32 p i = Done (pack re im).
Proof.
  intros [Hall Hlen] Hi.
  destruct (valid_lookup p (Z.to_nat (2 * i)) Hall) as (re & Ere & Hre); [lia|].
  destruct (valid_lookup p (Z.to_nat (2 * i + 1)) Hall) as (im & Eim & Him); [lia|].
  exists re, im. unfold sample, load32.
  destruct (Z.ltb_spec i 0); [lia|]. rewrite Ere, Eim. done.
Qed.

(** On a valid buffer, with fuel for every pass of both loops, the routine
    completes and each half of each sample is the one found on entry at the
    mirrored index. *)
Lemma bit_reverse_runs stages buf fuel :
  0 <= stages <= 30 -> valid_buffer buf stages ->
  (Z.to_nat (2 ^ stages + stages) <= fuel)%nat ->
  exists out,
    WebRtcSpl_ComplexBitReverse fuel buf stages = Done out /\
    valid_buffer out stages /\
    length out = length buf /\
    forall s c, 0 <= s -> 0 <= c <= 1 -> half out s c = half buf (permuted stages s) c.
Proof.
  intros Hst Hvalid Hfuel.
  pose proof (pow2_le_30 stages Hst) as Hp.
  destruct (for_loop_runs stages Hst buf Hvalid (Z.to_nat (2 ^ stages - 1)) (initial buf) fuel)
    as (st & Hrun & Hidx & Hinv & _).
  - apply invariant_initial; done.
  - cbn [initial index]. lia.
  - lia.
  - exists (complex_data st). unfold WebRtcSpl_ComplexBitReverse. rewrite Hrun. cbn [bind].
    split; [done|]. split; [|split].
    + split; [eapply invariant_int16; eauto|].
      rewrite (inv_length _ _ _ Hinv). apply Hvalid.
    + apply (inv_length _ _ _ Hinv).
    + intros s c Hs Hc. rewrite (inv_data _ _ _ Hinv) by done.
      rewrite Hidx, source_of_last by done. done.
Qed.

(** Every index from 1 to [2 ^ stages] is the index of a loop head the run
    passes through. *)
Lemma reached_every_index stages buf i :
  0 <= stages <= 30 -> valid_buffer buf stages -> 1 <= i <= 2 ^ stages ->
  exists st, reached buf stages st /\ index st = i.
Proof.
  intros Hst Hvalid Hi.
  replace i with (1 + Z.of_nat (Z.to_nat (i - 1))) in * by lia.
  induction (Z.to_nat (i - 1)) as [|n IH].
  - exists (initial buf). split; [apply rtc_refl | done].
  - destruct IH as (st & Hr & Hidx); [lia|].
    assert (Hle : index st <= max_of stages) by (rewrite max_of_small by done; lia).
    destruct (invariant_step stages Hst buf Hvalid st (Z.to_nat stages)
                (reached_invariant stages Hst buf Hvalid st Hr) Hle)
      as (st' & Hit & Hidx' & _); [lia|].
    exists st'. split; [|lia].
    eapply rtc_r; [exact Hr|]. split; [done|]. eauto.
Qed.

(** ** Stage counts beyond the 32-bit [int] *)

Lemma zeros_int16 n : Forall is_int16 (zeros n).
Proof. apply Forall_replicate. unfold is_int16. lia. Qed.

Lemma zeros_length n : 0 <= n -> Z.of_nat (length (zeros n)) = n.
Proof. intros Hn. unfold zeros. rewrite length_replicate. lia. Qed.

Lemma zeros_half n s c :
  0 <= s -> 0 <= c -> 2 * s + c < n -> half (zeros n) s c = Some 0.
Proof. intros Hs Hc Hlt. unfold zeros, half. apply lookup_replicate_2. lia. Qed.

Lemma half_skip3 (x0 x1 x2 x3 x4 x5 : Z) (tail : list Z) s c :
  3 <= s -> 0 <= c ->
  half (x0 :: x1 :: x2 :: x3 :: x4 :: x5 :: tail) s c = half tail (s - 3) c.
Proof.
  intros Hs Hc. unfold half.
  replace (Z.to_nat (2 * s + c)) with (6 + Z.to_nat (2 * (s - 3) + c))%nat by lia.
  done.
Qed.

Lemma buffer_31_valid : valid_buffer buffer_31 31.
Proof.
  split; unfold buffer_31.
  - apply zeros_int16.
  - rewrite zeros_length; lia.
Qed.

Lemma buffer_32_valid : valid_buffer buffer_32 32.
Proof.
  split; unfold buffer_32.
  - do 6 (apply Forall_cons; split; [unfold is_int16; lia|]). apply zeros_int16.
  - cbn [length]. rewrite !Nat2Z.inj_succ, zeros_length; lia.
Qed.

(** With [max] below 1 the loop is not entered, whatever [length] is. *)
Lemma for_loop_not_entered fuel length max data :
  max < 1 -> for_loop fuel length max (initial data) = Done (initial data).
Proof.
  intros Hmax. rewrite for_loop_unfold. cbn [initial index].
  destruct (Z.leb_spec 1 max); [lia|done].
Qed.

(** [2 ^ 32] does not fit the [int]: the shift leaves [length = 0] and
    [max = -1], and the loop is not entered.  (A shift that takes its count
    modulo 32 leaves [length = 1] and [max = 0], with the same effect.) *)
Lemma stages_32_unchanged fuel data :
  WebRtcSpl_ComplexBitReverse fuel data 32 = Done data.
Proof.
  unfold WebRtcSpl_ComplexBitReverse.
  rewrite for_loop_not_entered by (change (max_of 32) with (-1); lia). done.
Qed.

(** With [length] at [-2 ^ 31] and [max] at [2 ^ 31 - 1], the first pass
    leaves [index_reversed] at [-2 ^ 30]. *)
Lemma stages_31_first_pass fuel data :
  iteration (S fuel) (-2147483648) 2147483647 (initial data)
  = Done (mkState 2 (-1073741824) data).
Proof. done. Qed.

(** From there [max - index_reversed] wraps below every negative [bit]:
    the search never stops. *)
Lemma find_bit_stuck fuel bit :
  -1073741824 <= bit <= -1 ->
  find_bit fuel bit 2147483647 (-1073741824) = OutOfFuel.
Proof.
  revert bit. induction fuel as [|f IH]; intros bit Hbit; [done|].
  cbn [find_bit]. rewrite Z.shiftr_div_pow2 by lia. change (2 ^ 1) with 2.
  change (to_int32 (2147483647 - -1073741824)) with (-1073741825).
  destruct (Z.gtb_spec (bit / 2) (-1073741825)) as [_|Hle]; [|div_lia].
  apply IH. div_lia.
Qed.

Lemma stages_31_second_pass fuel data :
  iteration fuel (-2147483648) 2147483647 (mkState 2 (-1073741824) data) = OutOfFuel.
Proof.
  unfold iteration, advance. cbn [index_reversed].
  destruct fuel as [|f]; [done|].
  cbn [find_bit]. change (Z.shiftr (-2147483648) 1) with (-1073741824).
  change (to_int32 (2147483647 - -1073741824)) with (-1073741825).
  change (-1073741824 >? -1073741825) with true. cbn match.
  rewrite find_bit_stuck by lia. done.
Qed.

Lemma stages_31_diverges data :
  diverges (fun fuel => WebRtcSpl_ComplexBitReverse fuel data 31).
Proof.
  intros fuel. unfold WebRtcSpl_ComplexBitReverse.
  change (length_of 31) with (-2147483648). change (max_of 31) with 2147483647.
  destruct fuel as [|[|f]]; [done | done |].
  rewrite for_loop_unfold. change (index (initial data) <=? 2147483647) with true.
  cbn match. rewrite stages_31_first_pass. cbn [bind].
  rewrite for_loop_unfold. cbn [index]. change (2 <=? 2147483647) with true.
  cbn match. rewrite stages_31_second_pass. done.
Qed.

Lemma stages_31_no_result data fuel out :
  WebRtcSpl_ComplexBitReverse fuel data 31 <> Done out.
Proof. rewrite (stages_31_diverges data fuel). done. Qed.

(** ** The properties of the specification *)

(** A small valid input for the instances below: four samples, [stages = 2]. *)
Lemma four_samples_valid : valid_buffer [1; -1; 2; -2; 3; -3; 4; -4] 2.
Proof.
  split.
  - repeat (apply Forall_cons; split; [unfold is_int16; lia|]). apply Forall_nil. done.
  - cbn. lia.
Defined.

Lemma six_is_enough : (Z.to_nat (2 ^ 2 + 2) <= 6)%nat.
Proof. vm_compute. lia. Defined.

(** C1, amended: for every [stages] from 0 to 30 and every buffer of (at
    least) [2 ^ stages] packed complex samples, the routine returns, and
    then the 32-bit sample at every index [i] below [2 ^ stages] is the one
    that was at [reverse_bits i stages] on entry; equivalently the sample
    that was at [i] is now at [reverse_bits i stages]. *)
Theorem C1_samples_bit_reversed stages buf fuel :
  0 <= stages <= 30 -> valid_buffer buf stages ->
  (Z.to_nat (2 ^ stages + stages) <= fuel)%nat ->
  exists out,
    WebRtcSpl_ComplexBitReverse fuel buf stages = Done out /\
    forall i, 0 <= i < 2 ^ stages ->
      exists lane,
        load32 buf (reverse_bits i stages) = Done lane /\
        load32 out i = Done lane /\
        load32 out (reverse_bits i stages) = load32 buf i.
Proof.
  intros Hst Hvalid Hfuel.
  destruct (bit_reverse_runs stages buf fuel Hst Hvalid Hfuel) as (out & Hrun & _ & _ & Hhalf).
  exists out. split; [done|]. intros i Hi.
  pose proof (reverse_bits_bound stages (proj1 Hst) i) as Hb.
  destruct (sample_inside buf stages _ Hvalid Hb) as (re & im & _ & _ & _ & Hload).
  exists (pack re im). split; [done|]. split.
  - rewrite <- Hload. apply load32_halves; [lia | lia |].
    intros c Hc. rewrite Hhalf, permuted_inside by lia. done.
  - apply load32_halves; [lia | lia |].
    intros c Hc. rewrite Hhalf, permuted_inside by lia.
    rewrite reverse_bits_involutive by lia. done.
Qed.

Lemma C1_samples_bit_reversed_witness :
  exists out,
    WebRtcSpl_ComplexBitReverse 6 [1; -1; 2; -2; 3; -3; 4; -4] 2 = Done out /\
    forall i, 0 <= i < 2 ^ 2 ->
      exists lane,
        load32 [1; -1; 2; -2; 3; -3; 4; -4] (reverse_bits i 2) = Done lane /\
        load32 out i = Done lane /\
        load32 out (reverse_bits i 2) = load32 [1; -1; 2; -2; 3; -3; 4; -4] i.
Proof.
  apply (C1_samples_bit_reversed 2 [1; -1; 2; -2; 3; -3; 4; -4] 6);
    [lia | apply four_samples_valid | apply six_is_enough].
Defined.

(** C1 as stated fails for [stages = 32]: on a buffer of [2 ^ 32] samples
    the routine returns at once, whatever the fuel, and the sample at
    index 1 is not the one that was at [reverse_bits 1 32]. *)
Lemma C1_fails_at_32 :
  valid_buffer buffer_32 32 /\
  load32 buffer_32 1 = Done 65537 /\
  load32 buffer_32 (reverse_bits 1 32) = Done 0 /\
  ~ (exists fuel out,
       WebRtcSpl_ComplexBitReverse fuel buffer_32 32 = Done out /\
       load32 out 1 = load32 buffer_32 (reverse_bits 1 32)).
Proof.
  assert (H1 : load32 buffer_32 1 = Done 65537).
  { unfold buffer_32. generalize (zeros (2 * 2 ^ 32 - 6)). intros tail. done. }
  assert (H2 : load32 buffer_32 (reverse_bits 1 32) = Done 0).
  { change (reverse_bits 1 32) with 2147483648.
    apply (load32_pair _ _ 0 0); [lia| |]; unfold buffer_32;
      (rewrite half_skip3 by lia; apply zeros_half; lia). }
  split; [apply buffer_32_valid|]. split; [done|]. split; [done|].
  intros (fuel & out & Hrun & Heq).
  rewrite stages_32_unchanged in Hrun. injection Hrun as <-.
  rewrite H1, H2 in Heq. discriminate.
Qed.

(** C2, amended: for every [stages] from 0 to 30 and every buffer of
    [2 ^ stages] complex samples, two calls in succession both return and
    the second returns the buffer the first was given. *)
Theorem C2_involution stages buf fuel :
  0 <= stages <= 30 -> valid_buffer buf stages ->
  (Z.to_nat (2 ^ stages + stages) <= fuel)%nat ->
  exists out,
    WebRtcSpl_ComplexBitReverse fuel buf stages = Done out /\
    WebRtcSpl_ComplexBitReverse fuel out stages = Done buf.
Proof.
  intros Hst Hvalid Hfuel.
  destruct (bit_reverse_runs stages buf fuel Hst Hvalid Hfuel)
    as (out & Hrun & Hvalid' & _ & Hhalf).
  destruct (bit_reverse_runs stages out fuel Hst Hvalid' Hfuel)
    as (out' & Hrun' & _ & _ & Hhalf').
  exists out. split; [done|]. rewrite Hrun'. f_equal.
  apply halves_ext. intros s c Hs Hc.
  rewrite Hhalf' by done.
  rewrite Hhalf by (done || apply permuted_range; lia).
  rewrite permuted_involutive by lia. done.
Qed.

Lemma C2_involution_witness :
  exists out,
    WebRtcSpl_ComplexBitReverse 6 [1; -1; 2; -2; 3; -3; 4; -4] 2 = Done out /\
    WebRtcSpl_ComplexBitReverse 6 out 2 = Done [1; -1; 2; -2; 3; -3; 4; -4].
Proof.
  apply (C2_involution 2 [1; -1; 2; -2; 3; -3; 4; -4] 6);
    [lia | apply four_samples_valid | apply six_is_enough].
Defined.

(** C2 as stated fails for [stages = 31]: on a buffer of [2 ^ 31] samples
    no amount of fuel lets even the first call return, let alone a second
    one restore the buffer. *)
Lemma C2_fails_at_31 :
  valid_buffer buffer_31 31 /\
  ~ (exists fuel out,
       WebRtcSpl_ComplexBitReverse fuel buffer_31 31 = Done out /\
       WebRtcSpl_ComplexBitReverse fuel out 31 = Done buffer_31).
Proof.
  split; [apply buffer_31_valid|].
  intros (fuel & out & Hrun & _). exact (stages_31_no_result _ _ _ Hrun).
Qed.

(** C3, amended: for every [stages] from 0 to 30 and every buffer, the
    routine returns and the first [2 ^ stages] complex samples after the
    call are a rearrangement of those before it. *)
Theorem C3_rearrangement stages buf fuel :
  0 <= stages <= 30 -> valid_buffer buf stages ->
  (Z.to_nat (2 ^ stages + stages) <= fuel)%nat ->
  exists out,
    WebRtcSpl_ComplexBitReverse fuel buf stages = Done out /\
    Permutation (samples out (2 ^ stages)) (samples buf (2 ^ stages)).
Proof.
  intros Hst Hvalid Hfuel.
  destruct (bit_reverse_runs stages buf fuel Hst Hvalid Hfuel) as (out & Hrun & _ & _ & Hhalf).
  exists out. split; [done|]. unfold samples.
  rewrite <- (permuted_on_prefix stages (2 ^ stages)) at 2 by (done || lia).
  rewrite <- list_fmap_compose.
  rewrite (list_fmap_ext (sample out) (sample buf ∘ permuted stages)); [done|].
  intros k i Hk. apply lookup_seqZ in Hk as [-> Hlt]. cbn [compose].
  apply sample_halves; [lia | apply permuted_range; lia |].
  intros c Hc. apply Hhalf; lia.
Qed.

Lemma C3_rearrangement_witness :
  exists out,
    WebRtcSpl_ComplexBitReverse 6 [1; -1; 2; -2; 3; -3; 4; -4] 2 = Done out /\
    Permutation (samples out (2 ^ 2)) (samples [1; -1; 2; -2; 3; -3; 4; -4] (2 ^ 2)).
Proof.
  apply (C3_rearrangement 2 [1; -1; 2; -2; 3; -3; 4; -4] 6);
    [lia | apply four_samples_valid | apply six_is_enough].
Defined.

(** C3 as stated fails for [stages = 31]: on a buffer of [2 ^ 31] samples
    the call never returns, so there are no samples after it. *)
Lemma C3_fails_at_31 :
  valid_buffer buffer_31 31 /\
  ~ (exists fuel out,
       WebRtcSpl_ComplexBitReverse fuel buffer_31 31 = Done out /\
       Permutation (samples out (2 ^ 31)) (samples buffer_31 (2 ^ 31))).
Proof.
  split; [apply buffer_31_valid|].
  intros (fuel & out & Hrun & _). exact (stages_31_no_result _ _ _ Hrun).
Qed.

(** C4, amended: for every [stages] from 0 to 30 and every index [i] below
    [2 ^ stages], the (real, imaginary) pair of 16-bit values stored at
    [reverse_bits i stages] on entry is, after the call, the pair at index
    [i]: the real part in its real half, the imaginary part in its
    imaginary half. *)
Theorem C4_pairs_travel_together stages buf fuel :
  0 <= stages <= 30 -> valid_buffer buf stages ->
  (Z.to_nat (2 ^ stages + stages) <= fuel)%nat ->
  exists out,
    WebRtcSpl_ComplexBitReverse fuel buf stages = Done out /\
    forall i, 0 <= i < 2 ^ stages ->
      exists re im,
        sample buf (reverse_bits i stages) = Some (re, im) /\
        sample out i = Some (re, im) /\
        half out i 0 = Some re /\ half out i 1 = Some im.
Proof.
  intros Hst Hvalid Hfuel.
  destruct (bit_reverse_runs stages buf fuel Hst Hvalid Hfuel) as (out & Hrun & _ & _ & Hhalf).
  exists out. split; [done|]. intros i Hi.
  pose proof (reverse_bits_bound stages (proj1 Hst) i) as Hb.
  destruct (sample_inside buf stages _ Hvalid Hb) as (re & im & _ & _ & Hs & _).
  assert (Hout : sample out i = Some (re, im)).
  { rewrite <- Hs. apply sample_halves; [lia | lia |].
    intros c Hc. rewrite Hhalf, permuted_inside by lia. done. }
  exists re, im. split; [done|]. split; [done|].
  unfold sample in Hout. destruct (Z.ltb_spec i 0); [lia|].
  unfold half. rewrite Z.add_0_r.
  destruct (out !! Z.to_nat (2 * i)) as [x|]; [|done].
  destruct (out !! Z.to_nat (2 * i + 1)) as [y|]; [|done].
  injection Hout as -> ->. done.
Qed.

Lemma C4_pairs_travel_together_witness :
  exists out,
    WebRtcSpl_ComplexBitReverse 6 [1; -1; 2; -2; 3; -3; 4; -4] 2 = Done out /\
    forall i, 0 <= i < 2 ^ 2 ->
      exists re im,
        sample [1; -1; 2; -2; 3; -3; 4; -4] (reverse_bits i 2) = Some (re, im) /\
        sample out i = Some (re, im) /\
        half out i 0 = Some re /\ half out i 1 = Some im.
Proof.
  apply (C4_pairs_travel_together 2 [1; -1; 2; -2; 3; -3; 4; -4] 6);
    [lia | apply four_samples_valid | apply six_is_enough].
Defined.

(** C4 as stated fails for [stages = 32]: on a buffer of [2 ^ 32] samples
    the routine returns at once, and the pair at index 2 is still (2, 2),
    not the pair (0, 0) stored at [reverse_bits 2 32]. *)
Lemma C4_fails_at_32 :
  valid_buffer buffer_32 32 /\
  sample buffer_32 2 = Some (2, 2) /\
  sample buffer_32 (reverse_bits 2 32) = Some (0, 0) /\
  ~ (exists fuel out,
       WebRtcSpl_ComplexBitReverse fuel buffer_32 32 = Done out /\
       sample out 2 = sample buffer_32 (reverse_bits 2 32)).
Proof.
  assert (H1 : sample buffer_32 2 = Some (2, 2)).
  { unfold buffer_32. generalize (zeros (2 * 2 ^ 32 - 6)). intros tail. done. }
  assert (H2 : sample buffer_32 (reverse_bits 2 32) = Some (0, 0)).
  { change (reverse_bits 2 32) with 1073741824.
    apply sample_pair; [lia| |]; unfold buffer_32;
      (rewrite half_skip3 by lia; apply zeros_half; lia). }
  split; [apply buffer_32_valid|]. split; [done|]. split; [done|].
  intros (fuel & out & Hrun & Heq).
  rewrite stages_32_unchanged in Hrun. injection Hrun as <-.
  rewrite H1, H2 in Heq. discriminate.
Qed.

(** C5, amended: for every [stages] from 1 to 30 and every index [i] from 1
    to [2 ^ stages - 1], the loop reaches the iteration of index [i], and
    there the search for [bit] followed by the update of [index_reversed]
    yields [reverse_bits i stages]. *)
Theorem C5_reversed_counter stages buf fuel i :
  1 <= stages <= 30 -> valid_buffer buf stages ->
  (Z.to_nat stages <= fuel)%nat -> 1 <= i <= 2 ^ stages - 1 ->
  (exists st, reached buf stages st /\ index st = i) /\
  (forall st, reached buf stages st -> index st = i ->
     advance fuel (length_of stages) (max_of stages) (index_reversed st)
     = Done (reverse_bits i stages)).
Proof.
  intros Hst Hvalid Hfuel Hi.
  assert (Hst' : 0 <= stages <= 30) by lia.
  split; [apply reached_every_index; (done || lia)|].
  intros st Hr Hidx.
  pose proof (reached_invariant stages Hst' buf Hvalid st Hr) as Hinv.
  rewrite (inv_reversed _ _ _ Hinv), Hidx, advance_reverse by (done || lia).
  f_equal. f_equal. lia.
Qed.

Lemma C5_reversed_counter_witness :
  (exists st, reached [1; -1; 2; -2; 3; -3; 4; -4] 2 st /\ index st = 1) /\
  (forall st, reached [1; -1; 2; -2; 3; -3; 4; -4] 2 st -> index st = 1 ->
     advance 2 (length_of 2) (max_of 2) (index_reversed st) = Done (reverse_bits 1 2)).
Proof.
  apply (C5_reversed_counter 2 [1; -1; 2; -2; 3; -3; 4; -4] 2 1);
    [lia | apply four_samples_valid | vm_compute; lia | vm_compute; split; discriminate].
Defined.

(** C5 as stated fails for [stages = 31]: in the first iteration, from
    [index_reversed = 0], the search and the update yield [-2 ^ 30], which
    is not [reverse_bits 1 31]. *)
Lemma C5_fails_at_31 :
  index_reversed (initial buffer_31) = 0 /\
  advance 31 (length_of 31) (max_of 31) 0 = Done (-1073741824) /\
  reverse_bits 1 31 = 1073741824.
Proof. split; [done|]. split; vm_compute; done. Qed.

(** C6, amended: for every [stages] from 0 to 30 and every index [i] below
    [2 ^ stages] that is its own bit reversal, the routine returns with the
    sample at [i] as it was on entry; and the iteration of such an index
    (from 1 on) completes without a single access to the buffer, whatever
    the buffer holds: there is no exchange of a sample with itself. *)
Theorem C6_fixed_points stages buf fuel i :
  0 <= stages <= 30 -> valid_buffer buf stages ->
  (Z.to_nat (2 ^ stages + stages) <= fuel)%nat ->
  0 <= i < 2 ^ stages -> reverse_bits i stages = i ->
  (exists out,
     WebRtcSpl_ComplexBitReverse fuel buf stages = Done out /\
     sample out i = sample buf i /\ load32 out i = load32 buf i) /\
  (forall st, reached buf stages st -> index st = i ->
     forall data : list Z,
       iteration fuel (length_of stages) (max_of stages) (mkState i (index_reversed st) data)
       = Done (mkState (i + 1) i data)).
Proof.
  intros Hst Hvalid Hfuel Hi Hpal. split.
  - destruct (bit_reverse_runs stages buf fuel Hst Hvalid Hfuel)
      as (out & Hrun & _ & _ & Hhalf).
    exists out. split; [done|].
    assert (Hsame : forall c, 0 <= c <= 1 -> half out i c = half buf i c).
    { intros c Hc. rewrite Hhalf, permuted_inside, Hpal by lia. done. }
    split; [apply sample_halves | apply load32_halves]; done || lia.
  - intros st Hr Hidx data.
    pose proof (reached_invariant stages Hst buf Hvalid st Hr) as Hinv.
    pose proof (inv_index _ _ _ Hinv) as Hrange. rewrite Hidx in Hrange.
    pose proof (pow2_le_30 stages Hst) as Hp.
    unfold iteration. cbn [index index_reversed complex_data].
    rewrite (inv_reversed _ _ _ Hinv), Hidx, advance_reverse by (done || lia).
    replace (i - 1 + 1) with i by lia. rewrite Hpal. cbn [bind].
    rewrite Z.leb_refl, to_int32_id by (unfold is_int32; lia). done.
Qed.

Lemma C6_fixed_points_witness :
  (exists out,
     WebRtcSpl_ComplexBitReverse 6 [1; -1; 2; -2; 3; -3; 4; -4] 2 = Done out /\
     sample out 3 = sample [1; -1; 2; -2; 3; -3; 4; -4] 3 /\
     load32 out 3 = load32 [1; -1; 2; -2; 3; -3; 4; -4] 3) /\
  (forall st, reached [1; -1; 2; -2; 3; -3; 4; -4] 2 st -> index st = 3 ->
     forall data : list Z,
       iteration 6 (length_of 2) (max_of 2) (mkState 3 (index_reversed st) data)
       = Done (mkState (3 + 1) 3 data)).
Proof.
  apply (C6_fixed_points 2 [1; -1; 2; -2; 3; -3; 4; -4] 6 3);
    [lia | apply four_samples_valid | apply six_is_enough
    | vm_compute; split; [discriminate | reflexivity] | reflexivity].
Defined.

(** C6 as stated fails for [stages = 31]: index 0 is its own reversal, but
    on a buffer of [2 ^ 31] samples the call never returns, so there is no
    sample at position 0 after it. *)
Lemma C6_fails_at_31 :
  valid_buffer buffer_31 31 /\
  reverse_bits 0 31 = 0 /\
  ~ (exists fuel out,
       WebRtcSpl_ComplexBitReverse fuel buffer_31 31 = Done out /\
       sample out 0 = sample buffer_31 0).
Proof.
  split; [apply buffer_31_valid|]. split; [apply reverse_bits_0; lia|].
  intros (fuel & out & Hrun & _). exact (stages_31_no_result _ _ _ Hrun).
Qed.

(** C7: with [stages = 0] the length is 1 and [max] is 0, the loop is left
    at its first test with the state it was entered with, and the routine
    returns the buffer it was given, whatever the buffer and the fuel. *)
Theorem C7_single_sample_unchanged (fuel : nat) (buf : list Z) :
  length_of 0 = 1 /\ max_of 0 = 0 /\
  for_loop fuel (length_of 0) (max_of 0) (initial buf) = Done (initial buf) /\
  WebRtcSpl_ComplexBitReverse fuel buf 0 = Done buf.
Proof.
  split; [done|]. split; [done|].
  assert (H : for_loop fuel (length_of 0) (max_of 0) (initial buf) = Done (initial buf))
    by (rewrite for_loop_unfold; done).
  split; [done|]. unfold WebRtcSpl_ComplexBitReverse. rewrite H. done.
Qed.

(** C8: with [stages = 3], eight samples [v0 .. v7] in index order come out
    in the order [v0, v4, v2, v6, v1, v5, v3, v7]. *)
Theorem C8_eight_samples (v0 v1 v2 v3 v4 v5 v6 v7 : Z * Z) (fuel : nat) :
  Forall (fun v => is_int16 (fst v) /\ is_int16 (snd v)) [v0; v1; v2; v3; v4; v5; v6; v7] ->
  (11 <= fuel)%nat ->
  WebRtcSpl_ComplexBitReverse fuel (interleave [v0; v1; v2; v3; v4; v5; v6; v7]) 3
  = Done (interleave [v0; v4; v2; v6; v1; v5; v3; v7]).
Proof.
  intros Hall Hfuel.
  assert (Hvalid : valid_buffer (interleave [v0; v1; v2; v3; v4; v5; v6; v7]) 3).
  { split; [|cbn; lia]. cbn [interleave flat_map app].
    repeat (apply Forall_cons in Hall as [[? ?] Hall]).
    repeat (apply Forall_cons; split; [done|]). apply Forall_nil. done. }
  destruct (bit_reverse_runs 3 _ fuel ltac:(lia) Hvalid) as (out & Hrun & _ & Hlen & Hhalf).
  { change (Z.to_nat (2 ^ 3 + 3)) with 11%nat. done. }
  rewrite Hrun. f_equal. apply halves_ext. intros s c Hs Hc.
  rewrite Hhalf by done.
  assert (Hcase : s = 0 \/ s = 1 \/ s = 2 \/ s = 3 \/ s = 4 \/ s = 5 \/ s = 6 \/ s = 7 \/ 8 <= s)
    by lia.
  assert (Hc' : c = 0 \/ c = 1) by lia.
  destruct Hcase as [-> | [-> | [-> | [-> | [-> | [-> | [-> | [-> | Hbig]]]]]]]];
    try (destruct Hc' as [-> | ->]; reflexivity).
  rewrite permuted_outside by (change (2 ^ 3) with 8; lia).
  unfold half. rewrite !lookup_ge_None_2; [done | cbn; lia | cbn; lia].
Qed.

Lemma C8_eight_samples_witness :
  WebRtcSpl_ComplexBitReverse 11
    (interleave [(0, 100); (1, 101); (2, 102); (3, 103); (4, 104); (5, 105); (6, 106); (7, 107)]) 3
  = Done (interleave [(0, 100); (4, 104); (2, 102); (6, 106); (1, 101); (5, 105); (3, 103); (7, 107)]).
Proof.
  apply (C8_eight_samples (0, 100) (1, 101) (2, 102) (3, 103) (4, 104) (5, 105) (6, 106) (7, 107) 11);
    [|lia].
  repeat (apply Forall_cons; split; [unfold is_int16; cbn; lia|]). apply Forall_nil. done.
Defined.

(** C9, amended: for every [stages] from 0 to 30 and every valid buffer the
    routine runs to completion, and at every loop head it passes through
    with the loop condition true the search for [bit] stops within
    [stages] halvings. *)
Theorem C9_runs_to_completion stages buf fuel :
  0 <= stages <= 30 -> valid_buffer buf stages ->
  (Z.to_nat (2 ^ stages + stages) <= fuel)%nat ->
  (exists out, WebRtcSpl_ComplexBitReverse fuel buf stages = Done out) /\
  (forall st, reached buf stages st -> index st <= max_of stages ->
     exists bit,
       find_bit (Z.to_nat stages) (length_of stages) (max_of stages) (index_reversed st)
       = Done bit).
Proof.
  intros Hst Hvalid Hfuel. split.
  - destruct (bit_reverse_runs stages buf fuel Hst Hvalid Hfuel) as (out & Hrun & _).
    eauto.
  - intros st Hr Hle.
    pose proof (reached_invariant stages Hst buf Hvalid st Hr) as Hinv.
    pose proof (inv_index _ _ _ Hinv) as Hrange.
    rewrite max_of_small in Hle by done.
    rewrite (inv_reversed _ _ _ Hinv), length_of_small, max_of_small by done.
    destruct (find_bit_reverse (Z.to_nat stages) (index st - 1) (Z.to_nat stages))
      as (m & _ & Hfind & _); rewrite ?Z2Nat.id; try lia.
    rewrite Z2Nat.id in Hfind by lia. unfold reverse_bits. eauto.
Qed.

Lemma C9_runs_to_completion_witness :
  (exists out, WebRtcSpl_ComplexBitReverse 6 [1; -1; 2; -2; 3; -3; 4; -4] 2 = Done out) /\
  (forall st, reached [1; -1; 2; -2; 3; -3; 4; -4] 2 st -> index st <= max_of 2 ->
     exists bit,
       find_bit (Z.to_nat 2) (length_of 2) (max_of 2) (index_reversed st) = Done bit).
Proof.
  apply (C9_runs_to_completion 2 [1; -1; 2; -2; 3; -3; 4; -4] 6);
    [lia | apply four_samples_valid | apply six_is_enough].
Defined.

(** C9 as stated fails for [stages = 31]: on a buffer of [2 ^ 31] samples
    the routine yields no result whatever the fuel; the search for [bit] of
    the second iteration never stops. *)
Lemma C9_fails_at_31 :
  valid_buffer buffer_31 31 /\
  diverges (fun fuel => WebRtcSpl_ComplexBitReverse fuel buffer_31 31) /\
  diverges (fun fuel => find_bit fuel (length_of 31) (max_of 31) (-1073741824)).
Proof.
  split; [apply buffer_31_valid|]. split; [apply stages_31_diverges|].
  intros [|fuel]; [done|].
  change (length_of 31) with (-2147483648). change (max_of 31) with 2147483647.
  cbn [find_bit]. change (Z.shiftr (-2147483648) 1) with (-1073741824).
  change (to_int32 (2147483647 - -1073741824)) with (-1073741825).
  change (-1073741824 >? -1073741825) with true. cbn match.
  apply find_bit_stuck. lia.
Qed.

(** C10, amended: for every [stages] from 0 to 30, at every loop head the
    run passes through, [index_reversed] lies in [0, 2 ^ stages - 1] and
    [index] in [1, 2 ^ stages]; where the loop condition holds and the body is
    run, [index] lies in [1, 2 ^ stages - 1] and the updated [index_reversed]
    in [0, 2 ^ stages - 1], these being the two indices the body reads and
    writes at; and on a buffer of (at least) [2 ^ stages] complex samples no
    run, whatever its fuel, reads or writes outside the buffer. *)
Theorem C10_accesses_in_bounds stages buf :
  0 <= stages <= 30 -> valid_buffer buf stages ->
  (forall st, reached buf stages st ->
     0 <= index_reversed st <= 2 ^ stages - 1 /\ 1 <= index st <= 2 ^ stages) /\
  (forall st, reached buf stages st -> index st <= max_of stages ->
     1 <= index st <= 2 ^ stages - 1 /\
     forall fuel r,
       advance fuel (length_of stages) (max_of stages) (index_reversed st) = Done r ->
       0 <= r <= 2 ^ stages - 1) /\
  (forall fuel, WebRtcSpl_ComplexBitReverse fuel buf stages <> OutOfBounds).
Proof.
  intros Hst Hvalid. split; [|split].
  - intros st Hr.
    pose proof (reached_invariant stages Hst buf Hvalid st Hr) as Hinv.
    pose proof (reverse_bits_bound stages (proj1 Hst) (index st - 1)) as Hb.
    rewrite (inv_reversed _ _ _ Hinv). split; [lia|].
    apply (inv_index _ _ _ Hinv).
  - intros st Hr Hle.
    pose proof (reached_invariant stages Hst buf Hvalid st Hr) as Hinv.
    pose proof (inv_index _ _ _ Hinv) as Hrange.
    rewrite max_of_small in Hle by done. split; [lia|].
    intros fuel r Hadv.
    apply (advance_mono _ (fuel + Z.to_nat stages)) in Hadv; [|lia].
    rewrite (inv_reversed _ _ _ Hinv), advance_reverse in Hadv by (done || lia).
    injection Hadv as <-.
    pose proof (reverse_bits_bound stages (proj1 Hst) (index st - 1 + 1)). lia.
  - intros fuel. unfold WebRtcSpl_ComplexBitReverse.
    pose proof (for_loop_in_bounds stages Hst buf Hvalid fuel (initial buf)
                  (invariant_initial stages Hst buf)) as Hb.
    destruct (for_loop fuel (length_of stages) (max_of stages) (initial buf)); done.
Qed.

Lemma C10_accesses_in_bounds_witness :
  (forall st, reached [1; -1; 2; -2; 3; -3; 4; -4] 2 st ->
     0 <= index_reversed st <= 2 ^ 2 - 1 /\ 1 <= index st <= 2 ^ 2) /\
  (forall st, reached [1; -1; 2; -2; 3; -3; 4; -4] 2 st -> index st <= max_of 2 ->
     1 <= index st <= 2 ^ 2 - 1 /\
     forall fuel r,
       advance fuel (length_of 2) (max_of 2) (index_reversed st) = Done r ->
       0 <= r <= 2 ^ 2 - 1) /\
  (forall fuel, WebRtcSpl_ComplexBitReverse fuel [1; -1; 2; -2; 3; -3; 4; -4] 2 <> OutOfBounds).
Proof.
  apply (C10_accesses_in_bounds 2 [1; -1; 2; -2; 3; -3; 4; -4]);
    [lia | apply four_samples_valid].
Defined.

(** C10 as stated fails for [stages = 31]: on a buffer of [2 ^ 31] samples
    the loop head of index 2 is reached with [index_reversed] at
    [-2 ^ 30], below 0.  As for [index], it leaves [0, 2 ^ stages - 1] at the
    loop head where the loop is left: with [stages = 0] it is 1 from the
    start, above [2 ^ 0 - 1]. *)
Lemma C10_leaves_the_range :
  (valid_buffer buffer_31 31 /\
   reached buffer_31 31 (mkState 2 (-1073741824) buffer_31)) /\
  (valid_buffer [7; 7] 0 /\
   reached [7; 7] 0 (initial [7; 7]) /\ index (initial [7; 7]) = 1 /\ 2 ^ 0 - 1 = 0).
Proof.
  split; split.
  - apply buffer_31_valid.
  - apply rtc_once. split.
    + change (1 <= max_of 31). change (max_of 31) with 2147483647. lia.
    + exists 1%nat. exact (stages_31_first_pass 0 buffer_31).
  - split; [|cbn; lia].
    repeat (apply Forall_cons; split; [unfold is_int16; lia|]). apply Forall_nil. done.
  - split; [apply rtc_refl | done].
Qed.

(** ** Further properties of the routine *)



(** Boundary [stages = 1]: the single iteration finds [index_reversed = 1],
    not above [index = 1], and the buffer is returned as it was, without
    an access. *)
Theorem two_samples_unchanged (fuel : nat) (buf : list Z) :
  (2 <= fuel)%nat -> WebRtcSpl_ComplexBitReverse fuel buf 1 = Done buf.
Proof. intros Hfuel. destruct fuel as [|[|f]]; [lia | lia | done]. Qed.

Lemma two_samples_unchanged_witness :
  WebRtcSpl_ComplexBitReverse 2 [10; 11; 20; 21] 1 = Done [10; 11; 20; 21].
Proof. apply (two_samples_unchanged 2 [10; 11; 20; 21]). lia. Defined.

(** *** What one pass of the loop does *)

(** Each pass of the loop body, at a loop head the run passes through,
    completes; it leaves the buffer as it is when the mirror of [index] is
    not above [index], and otherwise exchanges the sample at [index] with
    the sample at the mirror, every other sample staying in place. *)
Theorem one_pass_exchanges_mirrored_pair stages buf fuel st :
  0 <= stages <= 30 -> valid_buffer buf stages -> (Z.to_nat stages <= fuel)%nat ->
  reached buf stages st -> index st <= max_of stages ->
  exists st',
    iteration fuel (length_of stages) (max_of stages) st = Done st' /\
    index st' = index st + 1 /\
    index_reversed st' = reverse_bits (index st) stages /\
    length (complex_data st') = length (complex_data st) /\
    (reverse_bits (index st) stages <= index st -> complex_data st' = complex_data st) /\
    (index st < reverse_bits (index st) stages ->
     forall s, 0 <= s ->
       sample (complex_data st') s
       = sample (complex_data st) (transpose (index st) (reverse_bits (index st) stages) s)).
Proof.
  intros Hst Hvalid Hfuel Hr Hle.
  pose proof (reached_invariant stages Hst buf Hvalid st Hr) as Hinv.
  assert (Hd16 : Forall is_int16 (complex_data st)) by (eapply invariant_int16; eauto).
  destruct st as [i r d]. destruct Hinv as [Hidx Hrev Hlen Hdata].
  cbn [index index_reversed complex_data] in *.
  rewrite max_of_small in Hle by done.
  pose proof (pow2_le_30 stages Hst) as Hp.
  pose proof (reverse_bits_bound stages (proj1 Hst) i) as Hb.
  destruct Hvalid as [_ Hsize].
  unfold iteration. cbn [index index_reversed complex_data].
  rewrite Hrev, advance_reverse by (done || lia).
  replace (i - 1 + 1) with i by lia. cbn [bind].
  rewrite (to_int32_id (i + 1)) by (unfold is_int32; lia).
  destruct (Z.leb_spec (reverse_bits i stages) i) as [Hskip|Hswap].
  - eexists. split; [done|]. cbn [index index_reversed complex_data].
    repeat (split; [done|]). intros Hlt. lia.
  - destruct (exchange d i (reverse_bits i stages) Hd16)
      as (temp & v & d1 & d2 & E1 & E2 & E3 & E4 & Hlen2 & Hd2); try lia.
    rewrite E1, E2. cbn [bind]. rewrite E3. cbn [bind]. rewrite E4. cbn [bind].
    eexists. split; [done|]. cbn [index index_reversed complex_data].
    repeat (split; [done|]). split; [lia|].
    intros _ s Hs. apply sample_halves; [done | unfold transpose; repeat case_match; lia |].
    intros c Hc. apply Hd2; done.
Qed.

Lemma one_pass_exchanges_mirrored_pair_witness :
  exists st',
    iteration 2 (length_of 2) (max_of 2) (initial [1; -1; 2; -2; 3; -3; 4; -4]) = Done st' /\
    index st' = index (initial [1; -1; 2; -2; 3; -3; 4; -4]) + 1 /\
    index_reversed st' = reverse_bits (index (initial [1; -1; 2; -2; 3; -3; 4; -4])) 2 /\
    length (complex_data st') = length (complex_data (initial [1; -1; 2; -2; 3; -3; 4; -4])) /\
    (reverse_bits (index (initial [1; -1; 2; -2; 3; -3; 4; -4])) 2
     <= index (initial [1; -1; 2; -2; 3; -3; 4; -4]) ->
     complex_data st' = complex_data (initial [1; -1; 2; -2; 3; -3; 4; -4])) /\
    (index (initial [1; -1; 2; -2; 3; -3; 4; -4])
     < reverse_bits (index (initial [1; -1; 2; -2; 3; -3; 4; -4])) 2 ->
     forall s, 0 <= s ->
       sample (complex_data st') s
       = sample (complex_data (initial [1; -1; 2; -2; 3; -3; 4; -4]))
           (transpose (index (initial [1; -1; 2; -2; 3; -3; 4; -4]))
              (reverse_bits (index (initial [1; -1; 2; -2; 3; -3; 4; -4])) 2) s)).
Proof.
  apply (one_pass_exchanges_mirrored_pair 2 [1; -1; 2; -2; 3; -3; 4; -4] 2
           (initial [1; -1; 2; -2; 3; -3; 4; -4]));
    [lia | apply four_samples_valid | vm_compute; lia | apply rtc_refl
    | vm_compute; discriminate].
Defined.



Lemma reverse_bits_nat_all_ones n :
  reverse_bits_nat n (2 ^ Z.of_nat n - 1) = 2 ^ Z.of_nat n - 1.
Proof.
  induction n as [|k IH]; [done|].
  cbn [reverse_bits_nat]. rewrite Nat2Z.inj_succ, Z.pow_succ_r by lia.
  pose proof (pow2_pos (Z.of_nat k) ltac:(lia)) as Hp.
  replace ((2 * 2 ^ Z.of_nat k - 1) mod 2) with 1 by div_lia.
  replace ((2 * 2 ^ Z.of_nat k - 1) / 2) with (2 ^ Z.of_nat k - 1) by div_lia.
  rewrite IH. lia.
Qed.



(** *** The buffer as a whole *)

(** Whatever follows the [2 ^ stages] samples in memory is kept, and the
    samples are reordered as if they stood alone. *)
Theorem tail_is_kept stages buf tail fuel :
  0 <= stages <= 30 -> valid_buffer buf stages ->
  Z.of_nat (length buf) = 2 * 2 ^ stages -> Forall is_int16 tail ->
  (Z.to_nat (2 ^ stages + stages) <= fuel)%nat ->
  exists out,
    WebRtcSpl_ComplexBitReverse fuel buf stages = Done out /\
    WebRtcSpl_ComplexBitReverse fuel (buf ++ tail) stages = Done (out ++ tail).
Proof.
  intros Hst Hvalid Hexact Htail Hfuel.
  destruct (bit_reverse_runs stages buf fuel Hst Hvalid Hfuel) as (out & Hrun & _ & Hlen & Hhalf).
  assert (Hvalid' : valid_buffer (buf ++ tail) stages).
  { destruct Hvalid as [Hall Hsize]. split; [apply Forall_app; done|].
    rewrite length_app. lia. }
  destruct (bit_reverse_runs stages (buf ++ tail) fuel Hst Hvalid' Hfuel)
    as (out' & Hrun' & _ & _ & Hhalf').
  exists out. split; [done|]. rewrite Hrun'. f_equal.
  apply halves_ext. intros s c Hs Hc. rewrite Hhalf' by done.
  pose proof (permuted_range stages s (proj1 Hst) Hs) as [Hp0 Hp1].
  destruct (Z_lt_le_dec s (2 ^ stages)) as [Hin|Hout].
  - unfold half at 1 2. rewrite !lookup_app_l by lia.
    symmetry. apply Hhalf; done.
  - rewrite permuted_outside by lia. unfold half.
    rewrite !lookup_app_r by lia. rewrite Hlen. done.
Qed.

Lemma tail_is_kept_witness :
  exists out,
    WebRtcSpl_ComplexBitReverse 6 [1; -1; 2; -2; 3; -3; 4; -4] 2 = Done out /\
    WebRtcSpl_ComplexBitReverse 6 ([1; -1; 2; -2; 3; -3; 4; -4] ++ [9; 8; 7]) 2
    = Done (out ++ [9; 8; 7]).
Proof.
  apply (tail_is_kept 2 [1; -1; 2; -2; 3; -3; 4; -4] [9; 8; 7] 6);
    [lia | apply four_samples_valid | reflexivity | | apply six_is_enough].
  repeat (apply Forall_cons; split; [unfold is_int16; lia|]). apply Forall_nil. done.
Defined.

(** The routine moves the 16-bit values without looking at them: changing
    every value of the buffer by the same function before the call or after
    it gives the same buffer. *)
Theorem values_are_not_inspected stages buf fuel (f : Z -> Z) :
  0 <= stages <= 30 -> valid_buffer buf stages ->
  (forall x, is_int16 x -> is_int16 (f x)) ->
  (Z.to_nat (2 ^ stages + stages) <= fuel)%nat ->
  exists out,
    WebRtcSpl_ComplexBitReverse fuel buf stages = Done out /\
    WebRtcSpl_ComplexBitReverse fuel (f <$> buf) stages = Done (f <$> out).
Proof.
  intros Hst Hvalid Hf Hfuel.
  destruct (bit_reverse_runs stages buf fuel Hst Hvalid Hfuel) as (out & Hrun & _ & Hlen & Hhalf).
  assert (Hvalid' : valid_buffer (f <$> buf) stages).
  { destruct Hvalid as [Hall Hsize]. split; [|rewrite length_fmap; done].
    apply Forall_fmap. eapply Forall_impl; [exact Hall|]. intros x Hx. apply Hf, Hx. }
  destruct (bit_reverse_runs stages (f <$> buf) fuel Hst Hvalid' Hfuel)
    as (out' & Hrun' & _ & _ & Hhalf').
  exists out. split; [done|]. rewrite Hrun'. f_equal.
  apply halves_ext. intros s c Hs Hc. rewrite Hhalf' by done.
  unfold half. rewrite !list_lookup_fmap. f_equal. symmetry. apply Hhalf; done.
Qed.

Lemma values_are_not_inspected_witness :
  exists out,
    WebRtcSpl_ComplexBitReverse 6 [1; -1; 2; -2; 3; -3; 4; -4] 2 = Done out /\
    WebRtcSpl_ComplexBitReverse 6 (Z.max 0 <$> [1; -1; 2; -2; 3; -3; 4; -4]) 2
    = Done (Z.max 0 <$> out).
Proof.
  apply (values_are_not_inspected 2 [1; -1; 2; -2; 3; -3; 4; -4] 6 (Z.max 0));
    [lia | apply four_samples_valid | unfold is_int16; lia | apply six_is_enough].
Defined.

(** *** The search for [bit] on its own *)

Lemma find_bit_highest_clear n r fuel :
  Z.of_nat n <= 30 -> 0 <= r < 2 ^ Z.of_nat n - 1 -> (n <= fuel)%nat ->
  exists m,
    0 <= m < Z.of_nat n /\
    find_bit fuel (2 ^ Z.of_nat n) (2 ^ Z.of_nat n - 1) r = Done (2 ^ m) /\
    Z.testbit r m = false /\
    forall j, m < j < Z.of_nat n -> Z.testbit r j = true.
Proof.
  revert r fuel. induction n as [|k IH]; intros r fuel Hn Hr Hfuel.
  - simpl in Hr. lia.
  - destruct fuel as [|f]; [lia|].
    pose proof (pow2_le_30 (Z.of_nat k) ltac:(lia)) as Hp.
    assert (E2 : 2 ^ Z.of_nat (S k) = 2 * 2 ^ Z.of_nat k)
      by (rewrite Nat2Z.inj_succ, Z.pow_succ_r; lia).
    assert (Pk : 2 ^ Z.of_nat k <= 536870912).
    { change 536870912 with (2 ^ 29). apply Z.pow_le_mono_r; lia. }
    cbn [find_bit]. rewrite Z.shiftr_div_pow2 by lia. rewrite E2 in *.
    replace (2 * 2 ^ Z.of_nat k / 2 ^ 1) with (2 ^ Z.of_nat k)
      by (change (2 ^ 1) with 2; rewrite Z.mul_comm, Z.div_mul; lia).
    rewrite to_int32_id by (unfold is_int32; lia).
    destruct (Z.gtb_spec (2 ^ Z.of_nat k) (2 * 2 ^ Z.of_nat k - 1 - r)) as [Hhigh|Hlow].
    + (* bit [k] of [r] is set: go on below it *)
      rewrite (find_bit_ext f _ _ _ (2 ^ Z.of_nat k - 1) (r - 2 ^ Z.of_nat k)) by (f_equal; lia).
      destruct (IH (r - 2 ^ Z.of_nat k) f) as (m & Hm & Hfind & Hclear & Hset); [lia | lia | lia |].
      assert (Hlowbits : forall j, 0 <= j < Z.of_nat k ->
                Z.testbit r j = Z.testbit (r - 2 ^ Z.of_nat k) j).
      { intros j Hj. rewrite <- (Z.mod_pow2_bits_low r (Z.of_nat k)) by lia.
        rewrite <- (Z.mod_pow2_bits_low (r - 2 ^ Z.of_nat k) (Z.of_nat k)) by lia.
        f_equal. replace r with (r - 2 ^ Z.of_nat k + 1 * 2 ^ Z.of_nat k) at 1 by lia.
        apply Z_mod_plus_full. }
      exists m. split; [lia|]. split; [done|]. split; [rewrite Hlowbits by lia; done|].
      intros j Hj. destruct (Z.eq_dec j (Z.of_nat k)) as [->|Hne].
      * rewrite <- (Z.add_0_l (Z.of_nat k)), <- Z.div_pow2_bits by lia.
        replace (r / 2 ^ Z.of_nat k) with 1; [done|].
        apply Z.div_unique with (r - 2 ^ Z.of_nat k); lia.
      * rewrite Hlowbits by lia. apply Hset. lia.
    + (* bit [k] of [r] is clear: stop *)
      exists (Z.of_nat k). split; [lia|]. split; [done|].
      split; [apply (testbit_above (Z.of_nat k)); lia|].
      intros j Hj. lia.
Qed.

(** The search stops at the highest bit, below bit [stages], that is clear
    in [index_reversed], and the update clears every bit above it and sets
    it, the bits below staying as they are.  So says the comment of the
    source on [mask]. *)
Theorem search_finds_highest_clear_bit stages r fuel :
  1 <= stages <= 30 -> 0 <= r < 2 ^ stages - 1 -> (Z.to_nat stages <= fuel)%nat ->
  exists m,
    0 <= m < stages /\
    find_bit fuel (length_of stages) (max_of stages) r = Done (2 ^ m) /\
    Z.testbit r m = false /\
    (forall j, m < j < stages -> Z.testbit r j = true) /\
    advance fuel (length_of stages) (max_of stages) r = Done (r mod 2 ^ m + 2 ^ m).
Proof.
  intros Hst Hr Hfuel.
  destruct (find_bit_highest_clear (Z.to_nat stages) r fuel) as (m & Hm & Hfind & Hclear & Hset);
    rewrite ?Z2Nat.id; try lia.
  rewrite Z2Nat.id in * by lia.
  exists m. unfold advance. rewrite length_of_small, max_of_small, Hfind by lia.
  split; [done|]. split; [done|]. split; [done|]. split; [done|]. cbn [bind].
  pose proof (pow2_le_30 m ltac:(lia)) as Hpm.
  pose proof (pow2_le_30 stages ltac:(lia)) as Hps.
  rewrite (to_int32_id (2 ^ m - 1)) by (unfold is_int32; lia).
  replace (2 ^ m - 1) with (Z.ones m) by (rewrite Z.ones_equiv; lia).
  rewrite Z.land_ones by lia.
  pose proof (Z.mod_pos_bound r (2 ^ m) ltac:(lia)).
  rewrite to_int32_id by (unfold is_int32; lia). done.
Qed.

Lemma search_finds_highest_clear_bit_witness :
  exists m,
    0 <= m < 3 /\
    find_bit 3 (length_of 3) (max_of 3) 5 = Done (2 ^ m) /\
    Z.testbit 5 m = false /\
    (forall j, m < j < 3 -> Z.testbit 5 j = true) /\
    advance 3 (length_of 3) (max_of 3) 5 = Done (5 mod 2 ^ m + 2 ^ m).
Proof.
  apply (search_finds_highest_clear_bit 3 5 3); [lia | vm_compute; split; [discriminate | reflexivity] | vm_compute; lia].
Defined.

(** *** How much of the buffer the routine needs *)

Lemma load32_short (p : list Z) i :
  0 <= i -> Z.of_nat (length p) < 2 * i + 2 -> load32 p i = OutOfBounds.
Proof.
  intros Hi Hlen. unfold load32. destruct (Z.ltb_spec i 0); [done|].
  rewrite (lookup_ge_None_2 p (Z.to_nat (2 * i + 1))) by lia.
  destruct (p !! Z.to_nat (2 * i)); done.
Qed.

Lemma load32_not_out_of_fuel (p : list Z) i : load32 p i <> OutOfFuel.
Proof.
  unfold load32. destruct (i <? 0); [done|].
  destruct (p !! Z.to_nat (2 * i)); [|done].
  destruct (p !! Z.to_nat (2 * i + 1)); done.
Qed.

Lemma store32_outcome (p : list Z) i v :
  store32 p i v = OutOfBounds \/
  exists d, store32 p i v = Done d /\ length d = length p.
Proof.
  unfold store32. destruct ((i <? 0) || (Z.of_nat (length p) <? 2 * i + 2)); [by left|].
  right. eexists. split; [done|]. rewrite !length_insert. done.
Qed.

(** With enough fuel for the search, a pass of the body at an index whose
    predecessor's mirror is in [index_reversed] either accesses outside the
    buffer or completes, with the mirror of the index in [index_reversed]
    and a buffer of the same length. *)
Lemma iteration_outcome stages st fuel :
  0 <= stages <= 30 -> 1 <= index st <= 2 ^ stages - 1 ->
  index_reversed st = reverse_bits (index st - 1) stages ->
  (Z.to_nat stages <= fuel)%nat ->
  iteration fuel (length_of stages) (max_of stages) st = OutOfBounds \/
  exists st',
    iteration fuel (length_of stages) (max_of stages) st = Done st' /\
    index st' = index st + 1 /\
    index_reversed st' = reverse_bits (index st) stages /\
    length (complex_data st') = length (complex_data st).
Proof.
  intros Hst Hidx Hrev Hfuel. destruct st as [i r d].
  cbn [index index_reversed complex_data] in *.
  pose proof (pow2_le_30 stages Hst) as Hp.
  unfold iteration. cbn [index index_reversed complex_data].
  rewrite Hrev, advance_reverse by (done || lia).
  replace (i - 1 + 1) with i by lia. cbn [bind].
  rewrite (to_int32_id (i + 1)) by (unfold is_int32; lia).
  destruct (Z.leb_spec (reverse_bits i stages) i).
  { right. eexists. split; [done|]. done. }
  pose proof (load32_not_out_of_fuel d i).
  pose proof (load32_not_out_of_fuel d (reverse_bits i stages)).
  destruct (load32 d i) as [temp| |]; cbn [bind]; [|done|by left].
  destruct (load32 d (reverse_bits i stages)) as [v| |]; cbn [bind]; [|done|by left].
  destruct (store32_outcome d i v) as [E|(d1 & E & Hl1)]; rewrite E; cbn [bind]; [by left|].
  destruct (store32_outcome d1 (reverse_bits i stages) temp) as [E'|(d2 & E' & Hl2)];
    rewrite E'; cbn [bind]; [by left|].
  right. eexists. split; [done|]. cbn [index index_reversed complex_data].
  split; [done|]. split; [done|]. congruence.
Qed.

Lemma reverse_bits_nat_low_ones k :
  reverse_bits_nat (S k) (2 ^ Z.of_nat k - 1) = 2 ^ Z.of_nat (S k) - 2.
Proof.
  induction k as [|j IH]; [done|].
  remember (S j) as k eqn:Ek. cbn [reverse_bits_nat]. subst k.
  rewrite !Nat2Z.inj_succ, !Z.pow_succ_r by lia.
  pose proof (pow2_pos (Z.of_nat j) ltac:(lia)) as Hp.
  replace ((2 * 2 ^ Z.of_nat j - 1) mod 2) with 1 by div_lia.
  replace ((2 * 2 ^ Z.of_nat j - 1) / 2) with (2 ^ Z.of_nat j - 1) by div_lia.
  rewrite IH, Nat2Z.inj_succ, Z.pow_succ_r by lia. lia.
Qed.

(** The loop on a buffer that lacks sample [2 ^ stages - 2]: at the latest
    the pass of index [2 ^ (stages - 1) - 1], whose mirror that is, reads
    outside the buffer. *)
Lemma for_loop_short stages n st fuel :
  2 <= stages <= 30 ->
  Z.of_nat n = 2 ^ (stages - 1) - 1 - index st -> 1 <= index st ->
  index_reversed st = reverse_bits (index st - 1) stages ->
  Z.of_nat (length (complex_data st)) < 2 * (2 ^ stages - 1) ->
  (n + 1 + Z.to_nat stages <= fuel)%nat ->
  for_loop fuel (length_of stages) (max_of stages) st = OutOfBounds.
Proof.
  intros Hst. revert st fuel.
  assert (Hst' : 0 <= stages <= 30) by lia.
  assert (Hpow : 2 ^ stages = 2 * 2 ^ (stages - 1)).
  { rewrite <- Z.pow_succ_r by lia. f_equal. lia. }
  pose proof (pow2_le_30 (stages - 1) ltac:(lia)) as Hp.
  assert (Hp2 : 2 <= 2 ^ (stages - 1)).
  { change 2 with (2 ^ 1) at 1. apply Z.pow_le_mono_r; lia. }
  assert (Hmirror : reverse_bits (2 ^ (stages - 1) - 1) stages = 2 ^ stages - 2).
  { unfold reverse_bits. replace (Z.to_nat stages) with (S (Z.to_nat (stages - 1))) by lia.
    pose proof (reverse_bits_nat_low_ones (Z.to_nat (stages - 1))) as H.
    rewrite Nat2Z.inj_succ, !Z2Nat.id in H by lia.
    rewrite H. f_equal. f_equal. lia. }
  pose proof (max_of_small stages Hst') as Hmax.
  induction n as [|n IH]; intros st fuel Hn Hidx Hrev Hlen Hfuel;
    (destruct fuel as [|f]; [lia|]); rewrite for_loop_unfold;
    (destruct (Z.leb_spec (index st) (max_of stages)); [|lia]).
  - assert (Ei : index st = 2 ^ (stages - 1) - 1) by lia.
    destruct st as [i r d]. cbn [index index_reversed complex_data] in *. subst i.
    unfold iteration. cbn [index index_reversed complex_data].
    rewrite Hrev, advance_reverse by (done || lia).
    replace (2 ^ (stages - 1) - 1 - 1 + 1) with (2 ^ (stages - 1) - 1) by lia.
    rewrite Hmirror. cbn [bind].
    destruct (Z.leb_spec (2 ^ stages - 2) (2 ^ (stages - 1) - 1)); [lia|].
    pose proof (load32_not_out_of_fuel d (2 ^ (stages - 1) - 1)).
    destruct (load32 d (2 ^ (stages - 1) - 1)) as [temp| |]; cbn [bind]; [|done|done].
    rewrite load32_short by lia. done.
  - destruct (iteration_outcome stages st f Hst') as [E|(st' & E & Hi' & Hr' & Hl')];
      [lia | done | lia | |]; rewrite E; cbn [bind]; [done|].
    apply IH; [lia | lia | | lia | lia].
    rewrite Hr', Hi'. f_equal. lia.
Qed.

(** With [stages] from 2 to 30, fewer than [2 ^ stages - 1] complex samples
    are not enough: the routine reads outside the buffer. *)
Theorem short_buffer_is_overrun stages buf fuel :
  2 <= stages <= 30 -> Z.of_nat (length buf) < 2 * (2 ^ stages - 1) ->
  (Z.to_nat (2 ^ stages + stages) <= fuel)%nat ->
  WebRtcSpl_ComplexBitReverse fuel buf stages = OutOfBounds.
Proof.
  intros Hst Hlen Hfuel. unfold WebRtcSpl_ComplexBitReverse.
  assert (Hpow : 2 ^ stages = 2 * 2 ^ (stages - 1)).
  { rewrite <- Z.pow_succ_r by lia. f_equal. lia. }
  pose proof (pow2_le_30 (stages - 1) ltac:(lia)) as Hp.
  assert (Hp2 : 2 <= 2 ^ (stages - 1)).
  { change 2 with (2 ^ 1) at 1. apply Z.pow_le_mono_r; lia. }
  rewrite (for_loop_short stages (Z.to_nat (2 ^ (stages - 1) - 2)));
    cbn [initial index index_reversed complex_data]; try done; try lia.
  change (1 - 1) with 0. symmetry. apply reverse_bits_0.
Qed.

Lemma short_buffer_is_overrun_witness :
  WebRtcSpl_ComplexBitReverse 6 [1; -1; 2; -2] 2 = OutOfBounds.
Proof.
  apply (short_buffer_is_overrun 2 [1; -1; 2; -2] 6);
    [lia | vm_compute; reflexivity | apply six_is_enough].
Defined.

Lemma load32_app_l (p q : list Z) i :
  0 <= i -> 2 * i + 2 <= Z.of_nat (length p) ->
  load32 (p ++ q) i = load32 p i /\ exists v, load32 p i = Done v.
Proof.
  intros Hi Hlen. unfold load32. destruct (Z.ltb_spec i 0); [lia|].
  rewrite !lookup_app_l by lia. split; [done|].
  destruct (lookup_lt_is_Some_2 p (Z.to_nat (2 * i)) ltac:(lia)) as [re ->].
  destruct (lookup_lt_is_Some_2 p (Z.to_nat (2 * i + 1)) ltac:(lia)) as [im ->].
  eauto.
Qed.

Lemma store32_app_l (p q : list Z) i v :
  0 <= i -> 2 * i + 2 <= Z.of_nat (length p) ->
  exists d,
    store32 p i v = Done d /\ store32 (p ++ q) i v = Done (d ++ q) /\
    length d = length p.
Proof.
  intros Hi Hlen. unfold store32. rewrite length_app.
  destruct (Z.ltb_spec i 0); [lia|].
  destruct (Z.ltb_spec (Z.of_nat (length p)) (2 * i + 2)); [lia|].
  destruct (Z.ltb_spec (Z.of_nat (length p + length q)) (2 * i + 2)); [lia|].
  cbn [orb]. eexists. split; [done|]. split.
  - f_equal. rewrite insert_app_l by lia.
    rewrite insert_app_l by (rewrite length_insert; lia). done.
  - rewrite !length_insert. done.
Qed.

(** A pass of the body whose accesses, if any, fall inside [d] does to
    [d ++ q] what it does to [d], and keeps [q]. *)
Lemma iteration_app fuel length max i ir (d q : list Z) r :
  advance fuel length max ir = Done r ->
  (r <= i \/
   0 <= i /\ 0 <= r /\ 2 * i + 2 <= Z.of_nat (List.length d)
   /\ 2 * r + 2 <= Z.of_nat (List.length d)) ->
  exists d',
    iteration fuel length max (mkState i ir d) = Done (mkState (to_int32 (i + 1)) r d') /\
    iteration fuel length max (mkState i ir (d ++ q))
    = Done (mkState (to_int32 (i + 1)) r (d' ++ q)) /\
    List.length d' = List.length d.
Proof.
  intros Hadv Hcase. unfold iteration. cbn [index index_reversed complex_data].
  rewrite Hadv. cbn [bind].
  destruct (Z.leb_spec r i) as [Hskip|Hswap]; [exists d; done|].
  destruct Hcase as [?|(Hi & Hr & Hli & Hlr)]; [lia|].
  destruct (load32_app_l d q i Hi Hli) as [-> [temp ->]].
  destruct (load32_app_l d q r Hr Hlr) as [-> [v ->]]. cbn [bind].
  destruct (store32_app_l d q i v Hi Hli) as (d1 & -> & -> & Hl1). cbn [bind].
  destruct (store32_app_l d1 q r temp Hr) as (d2 & -> & -> & Hl2); [lia|]. cbn [bind].
  exists d2. split; [done|]. split; [done|]. congruence.
Qed.

Lemma mirror_above_is_interior stages i :
  0 <= stages -> 0 <= i < 2 ^ stages - 1 -> reverse_bits i stages <= 2 ^ stages - 2.
Proof.
  intros Hst Hi.
  pose proof (reverse_bits_bound stages Hst i) as Hb.
  assert (Hne : reverse_bits i stages <> 2 ^ stages - 1); [|lia].
  intros E.
  assert (Hones : reverse_bits (2 ^ stages - 1) stages = 2 ^ stages - 1).
  { unfold reverse_bits. pose proof (reverse_bits_nat_all_ones (Z.to_nat stages)) as H.
    rewrite Z2Nat.id in H by lia. done. }
  rewrite <- Hones in E at 1.
  apply reverse_bits_inj in E; lia.
Qed.

(** The loop on a buffer [d] that lacks at most the last of the
    [2 ^ stages] samples, set beside the loop on [d ++ q], which has them
    all. *)
Lemma for_loop_app stages (orig q : list Z) n i ir (d : list Z) fuel :
  0 <= stages <= 30 -> valid_buffer (orig ++ q) stages ->
  2 * (2 ^ stages - 1) <= Z.of_nat (length orig) ->
  loop_invariant (orig ++ q) stages (mkState i ir (d ++ q)) ->
  length d = length orig ->
  Z.of_nat n = 2 ^ stages - i ->
  (n + Z.to_nat stages <= fuel)%nat ->
  exists st',
    for_loop fuel (length_of stages) (max_of stages) (mkState i ir d) = Done st' /\
    for_loop fuel (length_of stages) (max_of stages) (mkState i ir (d ++ q))
    = Done (mkState (index st') (index_reversed st') (complex_data st' ++ q)) /\
    length (complex_data st') = length orig.
Proof.
  intros Hst Hvalid Hsize. revert i ir d fuel.
  pose proof (pow2_le_30 stages Hst) as Hp.
  pose proof (max_of_small stages Hst) as Hmax.
  induction n as [|n IH]; intros i ir d fuel Hinv Hlen Hn Hfuel;
    rewrite !for_loop_unfold; cbn [index].
  - destruct (Z.leb_spec i (max_of stages)); [lia|].
    exists (mkState i ir d). done.
  - destruct fuel as [|f]; [lia|].
    destruct (Z.leb_spec i (max_of stages)) as [Hle|]; [|lia].
    pose proof (inv_index _ _ _ Hinv) as Hidx.
    pose proof (inv_reversed _ _ _ Hinv) as Hrev.
    cbn [index index_reversed] in Hidx, Hrev.
    destruct (invariant_step stages Hst (orig ++ q) Hvalid _ f Hinv Hle)
      as (st1 & Hit & Hi1 & _ & Hinv1); [lia|].
    cbn [index] in Hi1.
    assert (Hadv : advance f (length_of stages) (max_of stages) ir
                   = Done (reverse_bits i stages)).
    { rewrite Hrev, advance_reverse by (done || lia). f_equal. f_equal. lia. }
    destruct (iteration_app f _ _ i ir d q _ Hadv) as (d' & E & Eq & Hl').
    { destruct (Z_le_gt_dec (reverse_bits i stages) i) as [?|Hgt]; [by left|right].
      pose proof (reverse_bits_bound stages (proj1 Hst) i).
      pose proof (mirror_above_is_interior stages i (proj1 Hst)). lia. }
    rewrite E, Eq. cbn [bind].
    rewrite Eq in Hit. injection Hit as <-.
    rewrite (to_int32_id (i + 1)) in * by (unfold is_int32; lia).
    apply IH; [done | congruence | lia | lia].
Qed.

(** All but the last of the [2 ^ stages] samples are enough: on such a
    buffer the routine stays inside it and reorders the samples it has, the
    sample at [i] coming from [reverse_bits i stages]. *)
Theorem all_but_the_last_sample_suffice stages buf fuel :
  0 <= stages <= 30 -> Forall is_int16 buf ->
  2 * (2 ^ stages - 1) <= Z.of_nat (length buf) ->
  (Z.to_nat (2 ^ stages + stages) <= fuel)%nat ->
  exists out,
    WebRtcSpl_ComplexBitReverse fuel buf stages = Done out /\
    length out = length buf /\
    forall i, 0 <= i < 2 ^ stages - 1 ->
      sample out i = sample buf (reverse_bits i stages).
Proof.
  intros Hst Hall Hsize Hfuel.
  pose proof (pow2_le_30 stages Hst) as Hp.
  assert (Hvalid : valid_buffer (buf ++ [0; 0]) stages).
  { split.
    - apply Forall_app. split; [done|].
      repeat (apply Forall_cons; split; [unfold is_int16; lia|]). apply Forall_nil. done.
    - rewrite length_app. cbn [length]. lia. }
  destruct (for_loop_app stages buf [0; 0] (Z.to_nat (2 ^ stages - 1)) 1 0 buf fuel)
    as (st' & Hrun & Hrunp & Hlen); try done; try lia.
  { apply (invariant_initial stages Hst (buf ++ [0; 0])). }
  destruct (bit_reverse_runs stages (buf ++ [0; 0]) fuel Hst Hvalid Hfuel)
    as (outp & Hp1 & _ & _ & Hhalf).
  unfold WebRtcSpl_ComplexBitReverse in Hp1 |- *. unfold initial in Hp1 |- *.
  rewrite Hrunp in Hp1. rewrite Hrun. cbn [bind complex_data] in Hp1 |- *.
  injection Hp1 as <-.
  exists (complex_data st'). split; [done|]. split; [done|].
  intros i Hi.
  pose proof (reverse_bits_bound stages (proj1 Hst) i) as Hb.
  pose proof (mirror_above_is_interior stages i (proj1 Hst) Hi) as Hin.
  apply sample_halves; [lia | lia |]. intros c Hc.
  specialize (Hhalf i c ltac:(lia) Hc).
  rewrite permuted_inside in Hhalf by lia.
  unfold half in Hhalf |- *. rewrite !lookup_app_l in Hhalf by lia. done.
Qed.

Lemma all_but_the_last_sample_suffice_witness :
  exists out,
    WebRtcSpl_ComplexBitReverse 6 [1; -1; 2; -2; 3; -3] 2 = Done out /\
    length out = length [1; -1; 2; -2; 3; -3] /\
    forall i, 0 <= i < 2 ^ 2 - 1 ->
      sample out i = sample [1; -1; 2; -2; 3; -3] (reverse_bits i 2).
Proof.
  apply (all_but_the_last_sample_suffice 2 [1; -1; 2; -2; 3; -3] 6);
    [lia | | vm_compute; discriminate | apply six_is_enough].
  repeat (apply Forall_cons; split; [unfold is_int16; lia|]). apply Forall_nil. done.
Defined.
